(** * The OpenAI chat client of AgentVerse ([agentverse/llms/openai.py])

    A shallow embedding of [OpenAIChat]: the assembly of the message
    list, the interpretation of a chat-completion reply in the blocking
    and in the non-blocking entry point, and the retry decorator both
    are wrapped in. *)

From stdpp Require Import gmap strings list fin_maps.
From Stdlib Require Import ZArith.

Local Open Scope string_scope.
Local Open Scope list_scope.
Local Open Scope nat_scope.

(** ** Python string operations used by the client *)

Module PyStr.

(** [s.startswith(p)]. *)
Definition startswith (s p : string) : bool := String.prefix p s.

(** [s.replace(old, new)] scans [s] from the left; where [old] starts
    it emits [new] and jumps over the occurrence, elsewhere it copies
    one character.  [skip] counts the characters of an occurrence that
    are still to be jumped over. *)
Fixpoint replace_from (skip : nat) (s old new : string) : string :=
  match s with
  | EmptyString => EmptyString
  | String c s' =>
      match skip with
      | S k => replace_from k s' old new
      | O =>
          if String.prefix old s
          then new +:+ replace_from (String.length old - 1) s' old new
          else String c (replace_from 0 s' old new)
      end
  end.

(** With an empty [old], Python puts [new] before every character and
    at the end. *)
Fixpoint interleave (new s : string) : string :=
  match s with
  | EmptyString => new
  | String c s' => new +:+ String c (interleave new s')
  end.

Definition replace (s old new : string) : string :=
  match old with
  | EmptyString => interleave new s
  | String _ _ => replace_from 0 s old new
  end.

(** [old in s]: [old] starts somewhere in [s]. *)
Fixpoint contains (s old : string) : bool :=
  match s with
  | EmptyString => String.prefix old EmptyString
  | String _ s' => String.prefix old s || contains s' old
  end.

End PyStr.

(** ** Messages *)

(** A message is a Python [dict] with string keys; the client builds
    [{"role": ..., "content": ...}] and never looks inside the ones it is
    handed. *)
Abbreviation dict := (gmap string string).

Definition system_message (prompt : string) : dict :=
  {[ "role" := "system"; "content" := prompt ]}.

Definition user_message (prompt : string) : dict :=
  {[ "role" := "user"; "content" := prompt ]}.

(** [OpenAIChat.construct_messages], on list values. *)
Definition construct_messages
    (prepend_prompt : string) (history : list dict) (append_prompt : string)
    : list dict :=
  let messages := [] in
  let messages :=
    if decide (prepend_prompt ≠ "")
    then messages ++ [system_message prepend_prompt] else messages in
  let messages :=
    if decide (0 < length history)
    then messages ++ history else messages in
  let messages :=
    if decide (append_prompt ≠ "")
    then messages ++ [user_message append_prompt] else messages in
  messages.


(** ** Exceptions *)

(** The exceptions that can leave an attempt.  [OpenAIError] and
    [JSONDecodeError] come from the vendor client, [KeyboardInterrupt] is
    the interruption signal, [ValueError] is what the client raises
    itself; [KeyError], [SyntaxError], [TypeError] and [RuntimeError]
    stand for what indexing, [ast.literal_eval], an operation on an
    object of the wrong kind and the repair routine may raise. *)
Inductive exn :=
| OpenAIError (msg : string)
| JSONDecodeError (msg : string)
| KeyboardInterrupt
| ValueError (msg : string)
| KeyError (key : string)
| SyntaxError (msg : string)
| TypeError (msg : string)
| RuntimeError (msg : string).

(** [isinstance(e, Exception)]: of the above only [KeyboardInterrupt]
    derives from [BaseException] directly. *)
Definition is_Exception (e : exn) : bool :=
  match e with
  | KeyboardInterrupt => false
  | _ => true
  end.

(** ** The reply of the chat-completion service *)

(** A value that is a string or [None]. *)
Inductive pystr :=
| PyNone
| PyStr (s : string).

(** [message["function_call"]]: a name and the argument string. *)
Record FunctionCall := {
  fc_name : string;
  fc_arguments : string;
}.

(** [response["choices"][0]["message"]].  [msg_content] is [None] when
    the dict has no ["content"] key; [msg_function_call] is [None] when
    [.get("function_call")] is [None] (key absent or null). *)
Record ReplyMessage := {
  msg_content : option pystr;
  msg_function_call : option FunctionCall;
}.

(** [response["usage"]]. *)
Record Usage := {
  prompt_tokens : Z;
  completion_tokens : Z;
  usage_total_tokens : Z;
}.

(** A reply of the shape the service documents: [choices[0].message]
    and the three usage counters are there, and a function call has its
    name and its arguments.  Only the ["content"] key may be missing. *)
Record Response := {
  message : ReplyMessage;
  usage : Usage;
}.

(** A function schema; only its name is read. *)
Record FunctionSchema := {
  name : string;
  description : string;
  parameters : string;
}.

(** The keyword arguments of [openai.ChatCompletion.create] / [acreate]:
    [req_functions] is [None] when the call passes no [functions]. *)
Record Request (Args : Type) := {
  req_messages : list dict;
  req_functions : option (list FunctionSchema);
  req_args : Args;
}.
Arguments req_messages {Args} _.
Arguments req_functions {Args} _.
Arguments req_args {Args} _.

(** ** The result record *)

(** Modelled from the spec: the Result record ([LLMResult] of
    [agentverse.llms.base], whose declaration is not in this file).  A
    field holds the keyword argument the constructor call supplies;
    [content], [function_name] and [function_arguments] are [None] when
    the call leaves them to the class default. *)
Record LLMResult (Value : Type) := {
  content : option pystr;
  function_name : option string;
  function_arguments : option Value;
  send_tokens : Z;
  recv_tokens : Z;
  total_tokens : Z;
}.
Arguments content {Value} _.
Arguments function_name {Value} _.
Arguments function_arguments {Value} _.
Arguments send_tokens {Value} _.
Arguments recv_tokens {Value} _.
Arguments total_tokens {Value} _.

(** The free-text shape is populated when [content] was supplied, the
    function-call shape when the name and the arguments were. *)
Definition text_shape {Value} (r : LLMResult Value) : Prop :=
  is_Some (content r).

Definition call_shape {Value} (r : LLMResult Value) : Prop :=
  is_Some (function_name r) ∧ is_Some (function_arguments r).

(** ** Effects: the dispatch counter and the log *)

Inductive LogEvent :=
| LogPrompt (messages : list dict)
| LogWarn (text : string).

(** What an attempt can change: how many requests went out so far, and
    what was logged (oldest first). *)
Record World := {
  dispatches : nat;
  log : list LogEvent;
}.

(** A computation either raises or returns, and leaves a state. *)
Definition Outcome (A : Type) : Type := exn + A.
Definition State (S A : Type) : Type := S → Outcome A * S.

Definition ret {S A} (a : A) : State S A := λ s, (inr a, s).
Definition raise {S A} (e : exn) : State S A := λ s, (inl e, s).
Definition bind {S A B} (m : State S A) (k : A → State S B) : State S B :=
  λ s, match m s with
       | (inr a, s') => k a s'
       | (inl e, s') => (inl e, s')
       end.

Notation "x '<-' m ';;' k" := (bind m (λ x, k))
  (at level 100, m at next level, right associativity).
Notation "m ';;' k" := (bind m (λ _, k))
  (at level 100, right associativity).

(** [try: body except <classes>: handler]. *)
Definition try_except {S A} (body : State S A) (classes : exn → bool)
    (handler : exn → State S A) : State S A :=
  λ s, match body s with
       | (inl e, s') => if classes e then handler e s' else (inl e, s')
       | r => r
       end.

(** The client's effects act on the world. *)
Abbreviation M := (State World).

(** A bare [except:] catches everything. *)
Definition any_exception (e : exn) : bool := true.

(** [except (OpenAIError, KeyboardInterrupt, json.decoder.JSONDecodeError)]. *)
Definition client_errors (e : exn) : bool :=
  match e with
  | OpenAIError _ | KeyboardInterrupt | JSONDecodeError _ => true
  | _ => false
  end.

Definition log_prompt (messages : list dict) : M unit :=
  λ w, (inr tt, {| dispatches := dispatches w;
                   log := log w ++ [LogPrompt messages] |}).

Definition warn (text : string) : M unit :=
  λ w, (inr tt, {| dispatches := dispatches w;
                   log := log w ++ [LogWarn text] |}).

(** The world once the prompt is logged and the request has gone out. *)
Definition after_dispatch (w : World) (messages : list dict) : World :=
  {| dispatches := S (dispatches w);
     log := log w ++ [LogPrompt messages] |}.

(** Lift a callee that returns or raises. *)
Definition call {S A} (r : exn + A) : State S A :=
  match r with
  | inr a => ret a
  | inl e => raise e
  end.

(** [message["content"]]: a missing key raises [KeyError]. *)
Definition getitem_content (m : ReplyMessage) : M pystr :=
  match msg_content m with
  | Some c => ret c
  | None => raise (KeyError "content")
  end.

(** [message.get("content", "")]. *)
Definition get_content (m : ReplyMessage) : pystr :=
  default (PyStr "") (msg_content m).

(** ** Function-name handling of the non-blocking path *)

(** Lines 205-208: the prefix tests and the [str.replace] calls. *)
Definition normalize_function_name (function_name : string) : string :=
  if PyStr.startswith function_name "function."
  then PyStr.replace function_name "function." ""
  else if PyStr.startswith function_name "functions."
  then PyStr.replace function_name "functions." ""
  else function_name.

(** Lines 204 and 209-212: the loop over [functions] with its [break]. *)
Fixpoint valid_function (functions : list FunctionSchema)
    (function_name : string) : bool :=
  match functions with
  | [] => false
  | function :: rest =>
      if decide (name function = function_name) then true
      else valid_function rest function_name
  end.

Definition invalid_function_warning (function_name : string) : string :=
  "The returned function name " +:+ function_name +:+
  " is not in the list of valid functions. Retrying...".

Definition invalid_function_error (function_name : string) : string :=
  "The returned function name " +:+ function_name +:+
  " is not in the list of valid functions.".

Definition invalid_json_warning : string :=
  "The returned argument in function call is not valid json. Retrying...".

Definition invalid_json_error : string :=
  "The returned argument in function call is not valid json.".

(** ** The retry decorator *)

(** [stop_after_attempt(n)]: stop once the attempt just made is the
    [n]-th. *)
Definition stop_after_attempt (max_attempt_number attempt_number : nat) : bool :=
  bool_decide (max_attempt_number ≤ attempt_number)%nat.

(** tenacity's loop for [@retry(stop=..., wait=..., reraise=True)] with
    the default predicate [retry_if_exception_type(Exception)]: a
    returned value and an exception that is no [Exception] leave the loop
    at once; otherwise the loop stops when [stop] says so, re-raising the
    exception of the attempt just made, or goes on to the next attempt.
    The pause between two attempts changes neither the world nor the
    outcome and is left out.  The loop of the library is unbounded;
    [fuel] bounds the attempts this function will run, and [None] means
    it ran out. *)
Fixpoint retry_loop {A} (fuel : nat) (stop : nat → bool) (attempt_number : nat)
    (fn : M A) (w : World) : option (Outcome A * World) :=
  match fuel with
  | O => None
  | S fuel' =>
      match fn w with
      | (inr r, w') => Some (inr r, w')
      | (inl e, w') =>
          if negb (is_Exception e) then Some (inl e, w')
          else if stop attempt_number then Some (inl e, w')
          else retry_loop fuel' stop (S attempt_number) fn w'
      end
  end.

Definition retry {A} (fuel : nat) (max_attempt_number : nat) (fn : M A)
    : World → option (Outcome A * World) :=
  retry_loop fuel (stop_after_attempt max_attempt_number) 1 fn.

(** The world in which attempt number [k + 1] starts. *)
Fixpoint world_before {A} (fn : M A) (k : nat) (w : World) : World :=
  match k with
  | O => w
  | S k' => (fn (world_before fn k' w)).2
  end.

(** An attempt that raises an exception the decorator retries on. *)
Definition fails_retryably {A} (fn : M A) (w : World) : Prop :=
  ∃ e, (fn w).1 = inl e ∧ is_Exception e = true.

(** ** The client *)

Section Client.

Context {Value Args : Type}.

(** [ast.literal_eval] and [JsonRepair(s).repair()]: each returns or
    raises. *)
Variable literal_eval : string → exn + Value.
Variable JsonRepair_repair : string → exn + string.

(** The remote service: what the [k]-th request sent answers, or the
    error the vendor client raises for it.  [create] and [acreate]
    reach the same service. *)
Variable ChatCompletion : Request Args → nat → exn + Response.

(** [self.args.dict()]. *)
Variable self_args : Args.

Definition create (req : Request Args) : M Response :=
  λ w, (ChatCompletion req (dispatches w),
        {| dispatches := S (dispatches w); log := log w |}).

Definition acreate (req : Request Args) : M Response := create req.

Definition text_result (response : Response) : M (LLMResult Value) :=
  content <- getitem_content (message response) ;;
  ret {| content := Some content;
         function_name := None;
         function_arguments := None;
         send_tokens := prompt_tokens (usage response);
         recv_tokens := completion_tokens (usage response);
         total_tokens := usage_total_tokens (usage response) |}.

(** The body of [generate_response] (lines 120-169): one attempt. *)
Definition generate_response_attempt
    (prepend_prompt : string) (history : list dict) (append_prompt : string)
    (functions : list FunctionSchema) : M (LLMResult Value) :=
  let messages := construct_messages prepend_prompt history append_prompt in
  log_prompt messages ;;
  try_except
    (if decide (functions ≠ []) then
       response <- create {| req_messages := messages;
                             req_functions := Some functions;
                             req_args := self_args |} ;;
       match msg_function_call (message response) with
       | Some function_call =>
           arguments <- call (literal_eval (fc_arguments function_call)) ;;
           ret {| content := Some (get_content (message response));
                  function_name := Some (fc_name function_call);
                  function_arguments := Some arguments;
                  send_tokens := prompt_tokens (usage response);
                  recv_tokens := completion_tokens (usage response);
                  total_tokens := usage_total_tokens (usage response) |}
       | None => text_result response
       end
     else
       response <- create {| req_messages := messages;
                             req_functions := None;
                             req_args := self_args |} ;;
       text_result response)
    client_errors
    (λ error, raise error).

(** Lines 220-241: parse, and on any failure repair and parse again. *)
Definition parse_arguments (arguments : string) : M Value :=
  try_except
    (call (literal_eval arguments))
    any_exception
    (λ _,
       try_except
         (repaired <- call (JsonRepair_repair arguments) ;;
          call (literal_eval repaired))
         any_exception
         (λ _,
            warn invalid_json_warning ;;
            raise (ValueError invalid_json_error))).

(** The body of [agenerate_response] (lines 186-270): one attempt. *)
Definition agenerate_response_attempt
    (prepend_prompt : string) (history : list dict) (append_prompt : string)
    (functions : list FunctionSchema) : M (LLMResult Value) :=
  let messages := construct_messages prepend_prompt history append_prompt in
  log_prompt messages ;;
  try_except
    (if decide (functions ≠ []) then
       response <- acreate {| req_messages := messages;
                              req_functions := Some functions;
                              req_args := self_args |} ;;
       match msg_function_call (message response) with
       | Some function_call =>
           let function_name := fc_name function_call in
           let function_name := normalize_function_name function_name in
           if negb (valid_function functions function_name) then
             warn (invalid_function_warning function_name) ;;
             raise (ValueError (invalid_function_error function_name))
           else
             arguments <- parse_arguments (fc_arguments function_call) ;;
             ret {| content := None;
                    function_name := Some function_name;
                    function_arguments := Some arguments;
                    send_tokens := prompt_tokens (usage response);
                    recv_tokens := completion_tokens (usage response);
                    total_tokens := usage_total_tokens (usage response) |}
       | None => text_result response
       end
     else
       response <- acreate {| req_messages := messages;
                              req_functions := None;
                              req_args := self_args |} ;;
       text_result response)
    client_errors
    (λ error, raise error).

(** The decorated entry points: [stop_after_attempt(20)], [reraise=True]. *)
Definition generate_response (fuel : nat)
    (prepend_prompt : string) (history : list dict) (append_prompt : string)
    (functions : list FunctionSchema)
    : World → option (Outcome (LLMResult Value) * World) :=
  retry fuel 20
    (generate_response_attempt prepend_prompt history append_prompt functions).

Definition agenerate_response (fuel : nat)
    (prepend_prompt : string) (history : list dict) (append_prompt : string)
    (functions : list FunctionSchema)
    : World → option (Outcome (LLMResult Value) * World) :=
  retry fuel 20
    (agenerate_response_attempt prepend_prompt history append_prompt functions).

(** The two call modes, to state what holds of both. *)
Inductive entry_point :=
| Blocking
| NonBlocking.

Definition attempt_of (mode : entry_point) :=
  match mode with
  | Blocking => generate_response_attempt
  | NonBlocking => agenerate_response_attempt
  end.

Definition generate_of (mode : entry_point) :=
  match mode with
  | Blocking => generate_response
  | NonBlocking => agenerate_response
  end.

End Client.

(** The keyword arguments an attempt passes to [create] / [acreate]:
    the assembled messages, [functions] when there are any, and the
    request arguments of the client. *)
Definition request_sent {Args} (self_args : Args)
    (prepend_prompt : string) (history : list dict) (append_prompt : string)
    (functions : list FunctionSchema) : Request Args :=
  {| req_messages := construct_messages prepend_prompt history append_prompt;
     req_functions := if decide (functions ≠ []) then Some functions else None;
     req_args := self_args |}.

(** ** [construct_messages] on the object store *)

(** Python lists and dicts are objects: a list holds references, and two
    names may refer to one object.  This second embedding of
    [construct_messages] runs on a store of objects, so that what the
    call does to the caller's [history] can be stated. *)
Module Heap.

Abbreviation loc := nat.

Inductive object :=
| DictObj (d : dict)
| ListObj (items : list loc).

Abbreviation heap := (gmap nat object).

(** A new object gets a reference no live object has. *)
Definition alloc (o : object) : State heap loc :=
  λ h, let l := fresh (dom h) in (inr l, <[l := o]> h).

Definition list_items (l : loc) : State heap (list loc) :=
  λ h, match h !! l with
       | Some (ListObj items) => (inr items, h)
       | _ => (inl (TypeError "not a list"), h)
       end.

(** [len(l)]; a dict has a length too. *)
Definition len (l : loc) : State heap nat :=
  λ h, match h !! l with
       | Some (ListObj items) => (inr (length items), h)
       | Some (DictObj d) => (inr (size d), h)
       | None => (inl (TypeError "no such object"), h)
       end.

(** [l.append(x)]: the list object is updated in place. *)
Definition append (l : loc) (x : loc) : State heap unit :=
  items <- list_items l ;;
  λ h, (inr tt, <[l := ListObj (items ++ [x])]> h).

(** [l += other] for lists: [l] is extended in place with the
    references [other] holds; [other] is only read. *)
Definition iadd (l : loc) (other : loc) : State heap unit :=
  items <- list_items l ;;
  more <- list_items other ;;
  λ h, (inr tt, <[l := ListObj (items ++ more)]> h).

Definition construct_messages
    (prepend_prompt : string) (history : loc) (append_prompt : string)
    : State heap loc :=
  messages <- alloc (ListObj []) ;;
  (if decide (prepend_prompt ≠ "")
   then d <- alloc (DictObj (system_message prepend_prompt)) ;;
        append messages d
   else ret tt) ;;
  n <- len history ;;
  (if decide (0 < n) then iadd messages history else ret tt) ;;
  (if decide (append_prompt ≠ "")
   then d <- alloc (DictObj (user_message append_prompt)) ;;
        append messages d
   else ret tt) ;;
  ret messages.

(** The dict a reference points to. *)
Definition dict_at (h : heap) (l : loc) : option dict :=
  match h !! l with
  | Some (DictObj d) => Some d
  | _ => None
  end.

(** The value of a list of dicts: what [==] compares. *)
Definition list_value (h : heap) (l : loc) : option (list dict) :=
  match h !! l with
  | Some (ListObj items) => mapM (dict_at h) items
  | _ => None
  end.

End Heap.

(** ** Loading the module (lines 18-35) *)

(** The attributes the module sets on the vendor package. *)
Record OpenAIModule := {
  api_key : option string;
  proxy : option string;
}.

(** What loading leaves behind: the vendor package when its import
    succeeded, the availability flag, and the warnings logged. *)
Record Loaded := {
  openai : option OpenAIModule;
  is_openai_available : bool;
  load_warnings : list string;
}.

Definition package_missing_warning : string :=
  "openai package is not installed".

Definition key_missing_warning : string :=
  "OpenAI API key is not set. Please set the environment variable OPENAI_API_KEY".

(** The [try: import ... except ImportError: ... else: ...] block.
    [installed] says whether the import succeeds, [environ] is
    [os.environ]. *)
Definition load (installed : bool) (environ : gmap string string) : Loaded :=
  if installed then
    let api_key := environ !! "OPENAI_API_KEY" in
    let proxy := environ !! "http_proxy" in
    let proxy :=
      match proxy with
      | None => environ !! "HTTP_PROXY"
      | Some _ => proxy
      end in
    match api_key with
    | None =>
        {| openai := Some {| api_key := api_key; proxy := proxy |};
           is_openai_available := false;
           load_warnings := [key_missing_warning] |}
    | Some _ =>
        {| openai := Some {| api_key := api_key; proxy := proxy |};
           is_openai_available := true;
           load_warnings := [] |}
    end
  else
    {| openai := None;
       is_openai_available := false;
       load_warnings := [package_missing_warning] |}.

(** ** Request arguments and the constructor (lines 38-46, 92-100) *)

(** The value of a request argument.  [ArgFloat m e] is the float
    [m * 2^e]; the client only stores it. *)
Inductive argvalue :=
| ArgNone
| ArgStr (s : string)
| ArgInt (n : Z)
| ArgFloat (m e : Z)
| ArgList (items : list string).

(** [OpenAIChatArgs().dict()]: the fields of [OpenAIChatArgs] with their
    defaults, in the order they are declared.  The base class
    [BaseModelArgs] is not in the file and is taken to declare none. *)
Definition OpenAIChatArgs_dict : list (string * argvalue) :=
  [ ("model", ArgStr "gpt-3.5-turbo");
    ("max_tokens", ArgInt 2048);
    ("temperature", ArgFloat 1 0);
    ("top_p", ArgInt 1);
    ("n", ArgInt 1);
    ("stop", ArgNone);
    ("presence_penalty", ArgInt 0);
    ("frequency_penalty", ArgInt 0) ].

(** Lines 96-97, [for k, v in args.items(): args[k] = kwargs.pop(k, v)]:
    the items of [args] are visited in order; [pop] takes the caller's
    value out of [kwargs] when there is one and yields the default [v]
    otherwise.  The keys of a dict are distinct, so storing under a key
    already visited does not change what later iterations see. *)
Fixpoint override {V} (items : list (string * V)) (kwargs : gmap string V)
    : list (string * V) * gmap string V :=
  match items with
  | [] => ([], kwargs)
  | (k, v) :: rest =>
      let x := default v (kwargs !! k) in
      let kwargs := delete k kwargs in
      let '(args, kwargs) := override rest kwargs in
      ((k, x) :: args, kwargs)
  end.

(** What a field ends up with: the caller's value when [kwargs] has the
    key, the default otherwise. *)
Definition chosen {V} (kwargs : gmap string V) (item : string * V)
    : string * V :=
  (item.1, default item.2 (kwargs !! item.1)).

(** The keyword arguments [__init__] hands to the constructor of its
    base class. *)
Record ChatModelInit (V : Type) := {
  init_args : list (string * V);
  init_max_retry : Z;
}.
Arguments init_args {V} _.
Arguments init_max_retry {V} _.

(** [logging.warning(f"Unused arguments: {kwargs}")], with the dict it
    prints. *)
Inductive InitWarning (V : Type) :=
| UnusedArguments (kwargs : gmap string V).
Arguments UnusedArguments {V} _.

(** [OpenAIChat.__init__(self, max_retry=3, **kwargs)], from the dict of
    defaults; [max_retry] is [None] when the caller passes none. *)
Definition OpenAIChat_init {V} (defaults : list (string * V))
    (max_retry : option Z) (kwargs : gmap string V)
    : ChatModelInit V * list (InitWarning V) :=
  let '(args, kwargs) := override defaults kwargs in
  let warnings :=
    if decide (0 < size kwargs) then [UnusedArguments kwargs] else [] in
  ({| init_args := args; init_max_retry := default 3%Z max_retry |},
   warnings).

(** ** Stand-ins for the collaborators in the examples *)

(** A parsed argument structure, as far as the examples need one: a dict
    of strings. *)
Inductive pyvalue :=
| PyDict (items : list (string * string)).

(** [ast.literal_eval] on the argument strings the examples use. *)
Definition example_literal_eval (s : string) : exn + pyvalue :=
  if decide (s = "{'q': 'x'}") then inr (PyDict [("q", "x")])
  else if decide (s = "{}") then inr (PyDict [])
  else inl (SyntaxError "invalid syntax").

(** A repair routine that closes an unclosed brace. *)
Definition example_repair (s : string) : exn + string :=
  if decide (s = "{'q': 'x'") then inr "{'q': 'x'}"
  else inr s.

(** A service that answers every request with the same reply. *)
Definition constant_service {Args} (reply : exn + Response)
    : Request Args → nat → exn + Response :=
  λ _ _, reply.

Definition empty_world : World := {| dispatches := 0; log := [] |}.

Definition example_usage : Usage :=
  {| prompt_tokens := 5; completion_tokens := 3; usage_total_tokens := 8 |}.

Definition search_schema : FunctionSchema :=
  {| name := "search"; description := "search the web"; parameters := "{}" |}.

(** A reply that calls a function. *)
Definition function_call_reply (content : option pystr)
    (function_name arguments : string) : Response :=
  {| message :=
       {| msg_content := content;
          msg_function_call :=
            Some {| fc_name := function_name; fc_arguments := arguments |} |};
     usage := example_usage |}.

(** A reply that is text. *)
Definition text_reply (text : string) : Response :=
  {| message := {| msg_content := Some (PyStr text);
                   msg_function_call := None |};
     usage := example_usage |}.

(** A service that refuses every request. *)
Definition rate_limited : Request unit → nat → exn + Response :=
  constant_service (inl (OpenAIError "rate limit")).

(** A service that always answers with the given function call. *)
Definition calling_service (content : option pystr)
    (function_name arguments : string) : Request unit → nat → exn + Response :=
  constant_service (inr (function_call_reply content function_name arguments)).

(** A store in which object [0] is a history list of one message. *)
Definition example_heap : Heap.heap :=
  {[ 0 := Heap.ListObj [1];
     1 := Heap.DictObj (user_message "earlier") ]}.

(** A parser that is interrupted from the keyboard whatever it is given,
    and a repair routine that is. *)
Definition interrupted_literal_eval (s : string) : exn + pyvalue :=
  inl KeyboardInterrupt.

Definition interrupted_repair (s : string) : exn + string :=
  inl KeyboardInterrupt.

(** A parser that is interrupted while it reads the unrepaired string
    ["{'q': 'x'"] and works as [example_literal_eval] otherwise. *)
Definition literal_eval_interrupted_once (s : string) : exn + pyvalue :=
  if decide (s = "{'q': 'x'") then inl KeyboardInterrupt
  else example_literal_eval s.

(** A service whose first two requests hit the rate limit and whose
    later ones are answered with "hello". *)
Definition recovering_service : Request unit → nat → exn + Response :=
  λ _ k, if decide (k < 2) then inl (OpenAIError "rate limit")
         else inr (text_reply "hello").

(** A service whose first two requests hit the rate limit and whose
    third is interrupted from the keyboard. *)
Definition interrupted_service {Args}
    : Request Args → nat → exn + Response :=
  λ _ k, if decide (k < 2) then inl (OpenAIError "rate limit")
         else inl KeyboardInterrupt.

(** * Properties *)

(** ** String operations *)

Module PyStrFacts.
Import PyStr.

Lemma prefix_app (p s : string) : String.prefix p (p +:+ s) = true.
Proof.
  induction p as [|c p IH]; simpl.
  - by destruct s.
  - destruct (Ascii.ascii_dec c c); [exact IH | done].
Qed.

(** Jumping over an occurrence resumes the scan right behind it. *)
Lemma replace_from_skip (p s old new : string) :
  replace_from (String.length p) (p +:+ s) old new = replace_from 0 s old new.
Proof. induction p as [|c p IH]; simpl; [done | exact IH]. Qed.

(** Where [old] starts, [new] is emitted and the scan goes on behind
    the occurrence. *)
Lemma replace_occurrence (c : Ascii.ascii) (old s new : string) :
  replace (String c old +:+ s) (String c old) new
  = new +:+ replace s (String c old) new.
Proof.
  unfold replace.
  change (String c old +:+ s) with (String c (old +:+ s)).
  cbn [replace_from].
  change (String c (old +:+ s)) with (String c old +:+ s).
  rewrite prefix_app.
  change (String.length (String c old) - 1) with (String.length old - 0).
  by rewrite Nat.sub_0_r, replace_from_skip.
Qed.

(** Elsewhere one character is copied. *)
Lemma replace_no_occurrence (c : Ascii.ascii) (s old new : string) :
  old ≠ "" →
  String.prefix old (String c s) = false →
  replace (String c s) old new = String c (replace s old new).
Proof.
  intros Hold Hpre. destruct old as [|d old]; [done |].
  unfold replace. cbn [replace_from]. by rewrite Hpre.
Qed.

(** Without an occurrence of [old] nothing is replaced. *)
Lemma replace_absent (s old new : string) :
  contains s old = false → replace s old new = s.
Proof.
  destruct old as [|d old]; [by destruct s |].
  induction s as [|c s IH]; [done |].
  cbn [contains]. intros [Hhere Hrest]%orb_false_iff.
  rewrite replace_no_occurrence by done. by rewrite IH.
Qed.

End PyStrFacts.

(** ** Function-name normalization *)

(** The three names of the specification all normalize to ["lookup"]. *)
Theorem normalize_spec_examples :
  normalize_function_name "functions.lookup" = "lookup"
  ∧ normalize_function_name "function.lookup" = "lookup"
  ∧ normalize_function_name "lookup" = "lookup".
Proof. repeat split. Qed.

(** A name with neither prefix is left as it is. *)
Lemma normalize_unprefixed (function_name : string) :
  PyStr.startswith function_name "function." = false →
  PyStr.startswith function_name "functions." = false →
  normalize_function_name function_name = function_name.
Proof. unfold normalize_function_name. by intros -> ->. Qed.

(** After the prefix ["function."] the rest of the name is still
    scanned for further occurrences. *)
Lemma normalize_function_prefix (rest : string) :
  normalize_function_name ("function." +:+ rest)
  = PyStr.replace rest "function." "".
Proof.
  unfold normalize_function_name, PyStr.startswith.
  rewrite PyStrFacts.prefix_app.
  by rewrite PyStrFacts.replace_occurrence.
Qed.

Lemma normalize_functions_prefix (rest : string) :
  normalize_function_name ("functions." +:+ rest)
  = PyStr.replace rest "functions." "".
Proof.
  unfold normalize_function_name, PyStr.startswith.
  change (String.prefix "function." ("functions." +:+ rest)) with false.
  cbv iota. rewrite PyStrFacts.prefix_app.
  by rewrite PyStrFacts.replace_occurrence.
Qed.

(** X6: when the rest of the name holds no further occurrence of the
    prefix, the normalization strips exactly the leading prefix. *)
Theorem normalize_strips_single_prefix (rest : string) :
  (PyStr.contains rest "function." = false →
   normalize_function_name ("function." +:+ rest) = rest)
  ∧ (PyStr.contains rest "functions." = false →
     normalize_function_name ("functions." +:+ rest) = rest).
Proof.
  split; intros Habsent.
  - rewrite normalize_function_prefix. by apply PyStrFacts.replace_absent.
  - rewrite normalize_functions_prefix. by apply PyStrFacts.replace_absent.
Qed.

Lemma normalize_strips_single_prefix_witness :
  normalize_function_name ("function." +:+ "lookup") = "lookup".
Proof.
  apply (proj1 (normalize_strips_single_prefix "lookup")). reflexivity.
Defined.

(** C5: the normalization does not only strip the leading prefix.  The
    name ["function.my_function.tool"] starts with ["function."]; with
    that prefix stripped it would read ["my_function.tool"], but
    [str.replace] removes the second occurrence as well and the
    normalized name is ["my_tool"]. *)
Theorem normalize_removes_inner_occurrences :
  normalize_function_name ("function." +:+ "my_function.tool") = "my_tool"
  ∧ normalize_function_name ("function." +:+ "my_function.tool")
    ≠ "my_function.tool".
Proof. split; [reflexivity | discriminate]. Qed.

(** ** Message assembly *)

(** C7: with an empty [prepend_prompt] and an empty [append_prompt],
    [construct_messages] returns a list equal to [history]. *)
Theorem construct_messages_identity (history : list dict) :
  construct_messages "" history "" = history.
Proof.
  unfold construct_messages. cbv zeta.
  rewrite !(decide_False (P := "" ≠ "")) by (intros H; by apply H).
  destruct history as [|m history].
  - by rewrite decide_False by (simpl; lia).
  - by rewrite decide_True by (simpl; lia).
Qed.

(** The list [construct_messages] builds, piece by piece. *)
Lemma construct_messages_eq
    (prepend_prompt : string) (history : list dict) (append_prompt : string) :
  construct_messages prepend_prompt history append_prompt
  = (if decide (prepend_prompt ≠ "")
     then [system_message prepend_prompt] else [])
    ++ history
    ++ (if decide (append_prompt ≠ "")
        then [user_message append_prompt] else []).
Proof.
  unfold construct_messages. cbv zeta.
  destruct history as [|m history].
  - rewrite (decide_False (P := 0 < length [])) by (simpl; lia).
    repeat case_decide; by rewrite ?app_nil_r.
  - rewrite (decide_True (P := 0 < length (m :: history))) by (simpl; lia).
    repeat case_decide; by rewrite ?app_nil_r, ?app_nil_l.
Qed.

(** C8: with a non-empty [prepend_prompt], the first message of the
    assembled list is the system message whose content is
    [prepend_prompt], whatever [history] and [append_prompt] are. *)
Theorem construct_messages_head_system
    (prepend_prompt : string) (history : list dict) (append_prompt : string) :
  prepend_prompt ≠ "" →
  ∃ first rest,
    construct_messages prepend_prompt history append_prompt = first :: rest
    ∧ first !! "role" = Some "system"
    ∧ first !! "content" = Some prepend_prompt
    ∧ size first = 2.
Proof.
  intros Hne. rewrite construct_messages_eq.
  rewrite decide_True by done. simpl.
  eexists _, _. split; [reflexivity |].
  unfold system_message. split; [| split].
  - rewrite lookup_insert_eq. done.
  - rewrite lookup_insert_ne by done. by rewrite lookup_singleton_eq.
  - rewrite map_size_insert_None.
    + by rewrite map_size_singleton.
    + by rewrite lookup_singleton_ne.
Qed.

Lemma construct_messages_head_system_witness :
  ∃ first rest,
    construct_messages "You are a bot" [user_message "earlier"] "hi"
    = first :: rest
    ∧ first !! "role" = Some "system"
    ∧ first !! "content" = Some "You are a bot"
    ∧ size first = 2.
Proof.
  apply (construct_messages_head_system
           "You are a bot" [user_message "earlier"] "hi").
  discriminate.
Defined.

(** ** The retry loop *)

Section RetryFacts.

Context {A : Type} (fn : M A).

Lemma world_before_front (k : nat) (w : World) :
  world_before fn (S k) w = world_before fn k (fn w).2.
Proof.
  induction k as [|k IH]; [done |].
  change (world_before fn (S (S k)) w)
    with ((fn (world_before fn (S k) w)).2).
  by rewrite IH.
Qed.

(** The loop returns what a successful attempt returns. *)
Lemma retry_loop_returns fuel stop a w r w' :
  fn w = (inr r, w') →
  retry_loop (S fuel) stop a fn w = Some (inr r, w').
Proof. intros H. simpl. by rewrite H. Qed.

(** An exception outside [Exception] leaves the loop at once. *)
Lemma retry_loop_propagates fuel stop a w e w' :
  fn w = (inl e, w') → is_Exception e = false →
  retry_loop (S fuel) stop a fn w = Some (inl e, w').
Proof. intros H He. simpl. by rewrite H, He. Qed.

(** At the last attempt allowed the exception is re-raised. *)
Lemma retry_loop_stops fuel max a w e w' :
  fn w = (inl e, w') → max ≤ a →
  retry_loop (S fuel) (stop_after_attempt max) a fn w = Some (inl e, w').
Proof.
  intros H Hmax. simpl. rewrite H. unfold stop_after_attempt.
  rewrite bool_decide_eq_true_2 by done. by destruct (is_Exception e).
Qed.

(** [j] failed attempts below the bound are each followed by another
    attempt. *)
Lemma retry_loop_failures max fuel j a w :
  (∀ k, k < j → fails_retryably fn (world_before fn k w)) →
  a + j ≤ max →
  retry_loop (j + fuel) (stop_after_attempt max) a fn w
  = retry_loop fuel (stop_after_attempt max) (a + j) fn (world_before fn j w).
Proof.
  revert a w. induction j as [|j IH]; intros a w Hfail Hle.
  - by rewrite Nat.add_0_r.
  - destruct (Hfail 0) as (e & He & Hexc); [lia |].
    simpl in He. change (S j + fuel) with (S (j + fuel)).
    rewrite world_before_front.
    cbn [retry_loop]. destruct (fn w) as [[e' | r] w'] eqn:Hfn;
      simpl in He; [| done].
    injection He as ->. rewrite Hexc. cbn [negb snd].
    unfold stop_after_attempt at 1.
    rewrite bool_decide_eq_false_2 by lia.
    rewrite IH.
    + f_equal. lia.
    + intros k Hk. specialize (Hfail (S k)).
      rewrite world_before_front, Hfn in Hfail. apply Hfail. lia.
    + lia.
Qed.

(** The loop ends within the attempts the bound allows. *)
Lemma retry_loop_total max fuel a w :
  max - a < fuel →
  ∃ out, retry_loop fuel (stop_after_attempt max) a fn w = Some out.
Proof.
  revert a w. induction fuel as [|fuel IH]; intros a w Hfuel; [lia |].
  simpl. destruct (fn w) as [[e | r] w']; [| eauto].
  destruct (is_Exception e); simpl; [| eauto].
  unfold stop_after_attempt at 1. case_bool_decide; [eauto |].
  apply IH. lia.
Qed.

(** Fuel beyond what the loop uses changes nothing. *)
Lemma retry_loop_more_fuel stop fuel extra a w out :
  retry_loop fuel stop a fn w = Some out →
  retry_loop (fuel + extra) stop a fn w = Some out.
Proof.
  revert a w. induction fuel as [|fuel IH]; intros a w; [done |].
  simpl. destruct (fn w) as [[e | r] w']; [| done].
  destruct (is_Exception e); simpl; [| done].
  destruct (stop a); [done |]. apply IH.
Qed.

End RetryFacts.

(** ** One attempt *)

(** The outer handler only re-raises. *)
Lemma try_except_reraise {S B} (body : State S B) (classes : exn → bool) s :
  try_except body classes (λ error, raise error) s = body s.
Proof.
  unfold try_except, raise.
  destruct (body s) as [[e | b] s']; [by destruct (classes e) | done].
Qed.

Lemma log_prompt_then {A} (messages : list dict) (k : M A) (w : World) :
  (log_prompt messages ;; k) w
  = k {| dispatches := dispatches w;
         log := log w ++ [LogPrompt messages] |}.
Proof. reflexivity. Qed.

Ltac run_attempt :=
  unfold attempt_of, generate_response_attempt, agenerate_response_attempt;
  cbv zeta;
  rewrite !log_prompt_then, !try_except_reraise;
  unfold acreate, create, text_result, getitem_content, call, bind, ret,
    raise;
  simpl.

Section ClientFacts.

Context {Value Args : Type}.
Variable literal_eval : string → exn + Value.
Variable JsonRepair_repair : string → exn + string.
Variable ChatCompletion : Request Args → nat → exn + Response.
Variable self_args : Args.

Abbreviation attempt :=
  (attempt_of literal_eval JsonRepair_repair ChatCompletion self_args).
Abbreviation generate :=
  (generate_of literal_eval JsonRepair_repair ChatCompletion self_args).

(** Every attempt sends exactly one request. *)
Lemma attempt_dispatches mode pre hist app fns w :
  dispatches (attempt mode pre hist app fns w).2 = S (dispatches w).
Proof.
  destruct mode; run_attempt;
    unfold parse_arguments, try_except, call, warn, bind, ret, raise;
    repeat (case_match; simplify_eq; simpl in *; try done).
Qed.

Lemma world_before_dispatches mode pre hist app fns k w :
  dispatches (world_before (attempt mode pre hist app fns) k w)
  = dispatches w + k.
Proof.
  induction k as [|k IH]; simpl; [lia |].
  rewrite attempt_dispatches, IH. lia.
Qed.

(** An error of the request is the error of the attempt. *)
Lemma attempt_dispatch_error mode pre hist app fns w e :
  (∀ req, ChatCompletion req (dispatches w) = inl e) →
  (attempt mode pre hist app fns w).1 = inl e.
Proof.
  intros Herr.
  destruct mode; run_attempt; case_decide; simpl; by rewrite Herr.
Qed.

Lemma generate_of_retry mode fuel pre hist app fns :
  generate mode fuel pre hist app fns
  = retry fuel 20 (attempt mode pre hist app fns).
Proof. by destruct mode. Qed.

Lemma attempt_pair mode pre hist app fns w :
  attempt mode pre hist app fns w
  = ((attempt mode pre hist app fns w).1,
     world_before (attempt mode pre hist app fns) 1 w).
Proof. simpl. by destruct (attempt mode pre hist app fns w). Qed.

(** X1: every call ends: twenty attempts' worth of fuel is enough, and
    more fuel gives the same outcome. *)
Theorem generate_total mode fuel pre hist app fns w :
  20 ≤ fuel →
  ∃ out,
    generate_of literal_eval JsonRepair_repair ChatCompletion self_args
      mode 20 pre hist app fns w = Some out
    ∧ generate_of literal_eval JsonRepair_repair ChatCompletion self_args
        mode fuel pre hist app fns w = Some out.
Proof.
  intros Hfuel. rewrite !generate_of_retry. unfold retry.
  destruct (retry_loop_total (attempt mode pre hist app fns) 20 20 1 w)
    as [out Hout]; [lia |].
  exists out. split; [done |].
  replace fuel with (20 + (fuel - 20)) by lia.
  by apply retry_loop_more_fuel.
Qed.

(** X2: replies read as text: with no schemas supplied, or with a reply
    that calls no function, the two attempts do the same. *)
Theorem text_replies_agree pre hist app fns w :
  (fns ≠ [] →
   ∀ req response,
     ChatCompletion req (dispatches w) = inr response →
     msg_function_call (message response) = None) →
  generate_response_attempt literal_eval ChatCompletion self_args
    pre hist app fns w
  = agenerate_response_attempt literal_eval JsonRepair_repair ChatCompletion
      self_args pre hist app fns w.
Proof.
  intros Htext. run_attempt.
  case_decide; [| done]. simpl.
  destruct (ChatCompletion _ _) as [e | response] eqn:Hreply; [done |].
  by rewrite (Htext ltac:(done) _ _ Hreply).
Qed.

(** X3: a Result of the non-blocking attempt has exactly one shape. *)
Theorem agenerate_result_one_shape pre hist app fns w r w' :
  agenerate_response_attempt literal_eval JsonRepair_repair ChatCompletion
    self_args pre hist app fns w = (inr r, w') →
  (text_shape r ∧ ¬ call_shape r) ∨ (call_shape r ∧ ¬ text_shape r).
Proof.
  run_attempt.
  unfold parse_arguments, try_except, call, warn, bind, ret, raise,
    text_shape, call_shape;
    repeat (case_match; simplify_eq; simpl in *; try done);
    intros; simplify_eq; simpl;
    first [ left; split; [eauto | intros [[? ?] _]; done]
          | right; split; [eauto | intros [? ?]; done] ].
Qed.

(** ** The retry bound *)

(** C3: when each of the first twenty attempts of a call raises an
    exception the decorator retries on, the call (blocking or
    non-blocking) ends after the twentieth attempt by raising that
    attempt's exception: it returns no Result, and exactly twenty
    requests were sent, so there is no twenty-first attempt. *)
Theorem retry_stops_after_twenty_attempts mode fuel pre hist app fns w :
  20 ≤ fuel →
  (∀ k, k < 20 →
     fails_retryably (attempt mode pre hist app fns)
       (world_before (attempt mode pre hist app fns) k w)) →
  ∃ e,
    generate mode fuel pre hist app fns w
    = Some (inl e, world_before (attempt mode pre hist app fns) 20 w)
    ∧ (attempt mode pre hist app fns
         (world_before (attempt mode pre hist app fns) 19 w)).1 = inl e
    ∧ dispatches (world_before (attempt mode pre hist app fns) 20 w)
      = dispatches w + 20.
Proof.
  intros Hfuel Hfail.
  destruct (Hfail 19) as (e & He & _); [lia |].
  exists e. split; [| split]; [| done | apply world_before_dispatches].
  rewrite generate_of_retry. unfold retry.
  replace fuel with (19 + S (fuel - 20)) by lia.
  rewrite retry_loop_failures; [| intros k Hk; apply Hfail; lia | lia].
  apply retry_loop_stops; [| simpl; lia].
  change 19 with (0 + 19) at 2. rewrite attempt_pair, He.
  f_equal.
Qed.

(** ** Interruption *)

(** X19: when the request of attempt [k + 1] (with [k < 20], after [k]
    attempts that failed with retried exceptions) raises
    [KeyboardInterrupt], the call raises [KeyboardInterrupt] to its
    caller right after that attempt: [k + 1] requests were sent and no
    further attempt is made. *)
Theorem interrupt_propagates_immediately mode fuel pre hist app fns w k :
  20 ≤ fuel →
  k < 20 →
  (∀ j, j < k →
     fails_retryably (attempt mode pre hist app fns)
       (world_before (attempt mode pre hist app fns) j w)) →
  (∀ req, ChatCompletion req (dispatches w + k) = inl KeyboardInterrupt) →
  generate mode fuel pre hist app fns w
  = Some (inl KeyboardInterrupt,
          world_before (attempt mode pre hist app fns) (S k) w)
  ∧ dispatches (world_before (attempt mode pre hist app fns) (S k) w)
    = dispatches w + S k.
Proof.
  intros Hfuel Hk Hfail Hint.
  split; [| apply world_before_dispatches].
  rewrite generate_of_retry. unfold retry.
  replace fuel with (k + S (fuel - S k)) by lia.
  rewrite retry_loop_failures; [| done | lia].
  apply retry_loop_propagates; [| done].
  rewrite attempt_pair. f_equal.
  apply attempt_dispatch_error.
  intros req. rewrite world_before_dispatches. apply Hint.
Qed.

End ClientFacts.

(** ** [construct_messages] and the caller's objects *)

Module HeapFacts.
Import Heap.

Lemma alloc_fresh (o : object) (h : heap) :
  ∃ l, alloc o h = (inr l, <[l := o]> h) ∧ h !! l = None.
Proof.
  exists (fresh (dom h)). split; [done |].
  apply not_elem_of_dom, is_fresh.
Qed.

(** Allocating a dict and appending it to the list under construction
    changes that list object only, and adds one new object. *)
Lemma append_new (m : loc) (d : dict) (h : heap) (acc : list loc) :
  h !! m = Some (ListObj acc) →
  ∃ l h',
    (x <- alloc (DictObj d) ;; append m x) h = (inr tt, h')
    ∧ h !! l = None
    ∧ h' !! l = Some (DictObj d)
    ∧ h' !! m = Some (ListObj (acc ++ [l]))
    ∧ (∀ k o, k ≠ m → h !! k = Some o → h' !! k = Some o).
Proof.
  intros Hm. destruct (alloc_fresh (DictObj d) h) as (l & Halloc & Hl).
  assert (l ≠ m) as Hne by (intros ->; congruence).
  exists l, (<[m := ListObj (acc ++ [l])]> (<[l := DictObj d]> h)).
  split; [| split; [done | split; [| split]]].
  - unfold bind at 1. rewrite Halloc.
    unfold append, bind, list_items.
    rewrite lookup_insert_ne by done. by rewrite Hm.
  - rewrite lookup_insert_ne by done. by rewrite lookup_insert_eq.
  - by rewrite lookup_insert_eq.
  - intros k o Hk Hko. rewrite lookup_insert_ne by done.
    rewrite lookup_insert_ne by (intros ->; congruence). done.
Qed.

(** The optional system or user message. *)
Lemma prompt_step (mk : string → dict) (prompt : string)
    (m : loc) (h : heap) (acc : list loc) :
  h !! m = Some (ListObj acc) →
  ∃ new h',
    (if decide (prompt ≠ "")
     then x <- alloc (DictObj (mk prompt)) ;; append m x
     else ret tt) h = (inr tt, h')
    ∧ h' !! m = Some (ListObj (acc ++ new))
    ∧ (∀ k o, k ≠ m → h !! k = Some o → h' !! k = Some o)
    ∧ Forall (λ l, h !! l = None ∧ h' !! l = Some (DictObj (mk prompt))) new
    ∧ length new = (if decide (prompt ≠ "") then 1 else 0).
Proof.
  intros Hm. case_decide.
  - destruct (append_new m (mk prompt) h acc Hm)
      as (l & h' & Hrun & Hl & Hl' & Hm' & Hframe).
    exists [l], h'. repeat split; try done.
    by apply Forall_singleton.
  - exists [], h. rewrite app_nil_r. repeat split; try done.
Qed.

(** [messages += history] under the guard [len(history) > 0]. *)
Lemma extend_step (m history : loc) (h : heap) (acc items : list loc) :
  h !! m = Some (ListObj acc) →
  h !! history = Some (ListObj items) →
  history ≠ m →
  ∃ h',
    (if decide (0 < length items) then iadd m history else ret tt) h
    = (inr tt, h')
    ∧ h' !! m = Some (ListObj (acc ++ items))
    ∧ (∀ k o, k ≠ m → h !! k = Some o → h' !! k = Some o).
Proof.
  intros Hm Hhist Hne. case_decide.
  - exists (<[m := ListObj (acc ++ items)]> h). split; [| split].
    + unfold iadd, bind, list_items. by rewrite Hm, Hhist.
    + by rewrite lookup_insert_eq.
    + intros k o Hk Hko. by rewrite lookup_insert_ne.
  - exists h. destruct items; [| simpl in *; lia].
    rewrite app_nil_r. done.
Qed.

Lemma bind_run {S A B} (m : State S A) (k : A → State S B) s a s' :
  m s = (inr a, s') → bind m k s = k a s'.
Proof. intros H. unfold bind. by rewrite H. Qed.

Lemma len_list (l : loc) (h : heap) (items : list loc) :
  h !! l = Some (ListObj items) → len l h = (inr (length items), h).
Proof. intros H. unfold len. by rewrite H. Qed.

(** A run of [construct_messages] on a store in which [history] is a
    list. *)
Lemma construct_messages_run
    (prepend_prompt : string) (history : loc) (append_prompt : string)
    (h : heap) (items : list loc) :
  h !! history = Some (ListObj items) →
  ∃ messages h' lead trail,
    Heap.construct_messages prepend_prompt history append_prompt h
    = (inr messages, h')
    ∧ (∀ l o, h !! l = Some o → h' !! l = Some o)
    ∧ h' !! history = Some (ListObj items)
    ∧ h !! messages = None
    ∧ h' !! messages = Some (ListObj (lead ++ items ++ trail))
    ∧ Forall (λ l, h !! l = None
                   ∧ h' !! l = Some (DictObj (system_message prepend_prompt)))
        lead
    ∧ length lead = (if decide (prepend_prompt ≠ "") then 1 else 0)
    ∧ Forall (λ l, h !! l = None
                   ∧ h' !! l = Some (DictObj (user_message append_prompt)))
        trail
    ∧ length trail = (if decide (append_prompt ≠ "") then 1 else 0)
    ∧ length (lead ++ items ++ trail)
      = length items
        + (if decide (prepend_prompt ≠ "") then 1 else 0)
        + (if decide (append_prompt ≠ "") then 1 else 0).
Proof.
  intros Hhist.
  destruct (alloc_fresh (ListObj []) h) as (m & Halloc & Hm).
  assert (history ≠ m) as Hne by (intros ->; congruence).
  set (h1 := <[m := ListObj []]> h) in *.
  assert (h1 !! m = Some (ListObj [])) as Hm1
    by (subst h1; by rewrite lookup_insert_eq).
  assert (∀ l o, h !! l = Some o → l ≠ m ∧ h1 !! l = Some o) as Hframe1.
  { intros l o Hl. assert (l ≠ m) by (intros ->; congruence).
    split; [done |]. subst h1. by rewrite lookup_insert_ne. }
  destruct (prompt_step system_message prepend_prompt m h1 [] Hm1)
    as (lead & h2 & Hrun2 & Hm2 & Hframe2 & Hlead & Hlen_lead).
  simpl in Hm2.
  assert (h2 !! history = Some (ListObj items)) as Hhist2.
  { apply Hframe2; [done |]. by apply Hframe1. }
  destruct (extend_step m history h2 lead items Hm2 Hhist2 Hne)
    as (h3 & Hrun3 & Hm3 & Hframe3).
  destruct (prompt_step user_message append_prompt m h3 (lead ++ items) Hm3)
    as (trail & h4 & Hrun4 & Hm4 & Hframe4 & Htrail & Hlen_trail).
  assert (∀ l o, h !! l = Some o → h4 !! l = Some o) as Hframe.
  { intros l o Hl. destruct (Hframe1 l o Hl) as [Hlm Hl1].
    apply Hframe4, Hframe3, Hframe2; done. }
  exists m, h4, lead, trail.
  split; [| split; [done | split; [by apply Hframe | split; [done |]]]].
  { unfold Heap.construct_messages.
    rewrite (bind_run _ _ _ _ _ Halloc).
    rewrite (bind_run _ _ _ _ _ Hrun2).
    rewrite (bind_run _ _ _ _ _ (len_list _ _ _ Hhist2)).
    rewrite (bind_run _ _ _ _ _ Hrun3).
    rewrite (bind_run _ _ _ _ _ Hrun4).
    done. }
  split; [by rewrite Hm4, <- app_assoc |].
  split.
  { eapply Forall_impl; [exact Hlead |]. intros l [Hl1 Hl2]. simpl.
    assert (l ≠ m) as Hlm by (intros ->; congruence).
    split.
    - subst h1. by rewrite lookup_insert_ne in Hl1.
    - apply Hframe4, Hframe3; done. }
  split; [done |].
  split.
  { eapply Forall_impl; [exact Htrail |]. intros l [Hl3 Hl4]. simpl.
    split; [| done].
    destruct (h !! l) as [o |] eqn:Hl; [| done].
    destruct (Hframe1 l o Hl) as [Hlm Hl1].
    rewrite (Hframe3 l o Hlm (Hframe2 l o Hlm Hl1)) in Hl3. done. }
  split; [done |].
  rewrite !length_app, Hlen_lead, Hlen_trail. lia.
Qed.

(** C10: [construct_messages] leaves every object of the caller as it
    was, the [history] list and the dicts it refers to included; it
    returns a new list object, distinct from [history], that holds, in
    this order, at most one new system message, the very references
    [history] holds, and at most one new user message; its length is
    that of [history] plus one for each non-empty prompt. *)
Theorem construct_messages_frame
    (prepend_prompt : string) (history : loc) (append_prompt : string)
    (h : heap) (items : list loc) :
  h !! history = Some (ListObj items) →
  ∃ messages h' lead trail,
    Heap.construct_messages prepend_prompt history append_prompt h
    = (inr messages, h')
    ∧ h' !! history = Some (ListObj items)
    ∧ (∀ l o, h !! l = Some o → h' !! l = Some o)
    ∧ (∀ l d, l ∈ items → dict_at h l = Some d → dict_at h' l = Some d)
    ∧ messages ≠ history
    ∧ h !! messages = None
    ∧ h' !! messages = Some (ListObj (lead ++ items ++ trail))
    ∧ Forall (λ l, h !! l = None
                   ∧ h' !! l = Some (DictObj (system_message prepend_prompt)))
        lead
    ∧ length lead = (if decide (prepend_prompt ≠ "") then 1 else 0)
    ∧ Forall (λ l, h !! l = None
                   ∧ h' !! l = Some (DictObj (user_message append_prompt)))
        trail
    ∧ length trail = (if decide (append_prompt ≠ "") then 1 else 0)
    ∧ length (lead ++ items ++ trail)
      = length items
        + (if decide (prepend_prompt ≠ "") then 1 else 0)
        + (if decide (append_prompt ≠ "") then 1 else 0).
Proof.
  intros Hhist.
  destruct (construct_messages_run prepend_prompt history append_prompt
              h items Hhist)
    as (m & h' & lead & trail & Hrun & Hframe & Hhist' & Hnew & Hm & Hlead
        & Hll & Htrail & Hlt & Hlen).
  exists m, h', lead, trail.
  split; [done |]. split; [done |]. split; [done |].
  split.
  { intros l d _. unfold dict_at.
    destruct (h !! l) as [[d' | ?] |] eqn:Hl; try done.
    intros [= ->]. by rewrite (Hframe _ _ Hl). }
  split; [intros ->; congruence |].
  repeat split; done.
Qed.

End HeapFacts.

(** X7: what the store version returns denotes what the value version
    computes. *)
Lemma construct_messages_value
    (prepend_prompt : string) (history : Heap.loc) (append_prompt : string)
    (h : Heap.heap) (values : list dict) :
  Heap.list_value h history = Some values →
  ∃ messages h',
    Heap.construct_messages prepend_prompt history append_prompt h
    = (inr messages, h')
    ∧ Heap.list_value h' messages
      = Some (construct_messages prepend_prompt values append_prompt).
Proof.
  unfold Heap.list_value at 1. intros Hval.
  destruct (h !! history) as [[d | items] |] eqn:Hhist; try done.
  destruct (HeapFacts.construct_messages_run prepend_prompt history append_prompt
              h items Hhist)
    as (m & h' & lead & trail & Hrun & Hframe & _ & _ & Hm & Hlead & Hll
        & Htrail & Hlt & _).
  exists m, h'. split; [done |].
  unfold Heap.list_value. rewrite Hm, construct_messages_eq.
  apply mapM_Some. apply mapM_Some in Hval.
  assert (Forall2 (λ l d, Heap.dict_at h' l = Some d) items values) as Hmid.
  { eapply Forall2_impl; [exact Hval |]. intros l d. unfold Heap.dict_at.
    destruct (h !! l) as [[d' | ?] |] eqn:Hl; try done.
    intros [= ->]. by rewrite (Hframe _ _ Hl). }
  revert Hll Hlt.
  destruct (decide (prepend_prompt ≠ "")), (decide (append_prompt ≠ ""));
    intros Hll Hlt;
    destruct lead as [| l1 [| ? ?]]; try done;
    destruct trail as [| l2 [| ? ?]]; try done;
    repeat apply Forall2_app; try done;
    try (constructor; [| constructor]; unfold Heap.dict_at);
    first [ pose proof (Forall_inv Hlead) as [_ Hl]; by rewrite Hl
          | pose proof (Forall_inv Htrail) as [_ Hl]; by rewrite Hl ].
Qed.

(** ** Argument recovery *)

Section ParseFacts.

Context {Value : Type}.
Variable literal_eval : string → exn + Value.
Variable JsonRepair_repair : string → exn + string.

Lemma parse_arguments_literal arguments v w :
  literal_eval arguments = inr v →
  parse_arguments literal_eval JsonRepair_repair arguments w = (inr v, w).
Proof.
  intros H. unfold parse_arguments, try_except, call, ret. by rewrite H.
Qed.

Lemma parse_arguments_repaired arguments e repaired v w :
  literal_eval arguments = inl e →
  JsonRepair_repair arguments = inr repaired →
  literal_eval repaired = inr v →
  parse_arguments literal_eval JsonRepair_repair arguments w = (inr v, w).
Proof.
  intros H1 H2 H3.
  unfold parse_arguments, try_except, call, bind, ret, raise.
  by rewrite H1, H2, H3.
Qed.

Lemma parse_arguments_irreparable arguments e w :
  literal_eval arguments = inl e →
  (∀ repaired, JsonRepair_repair arguments = inr repaired →
     ∃ e', literal_eval repaired = inl e') →
  parse_arguments literal_eval JsonRepair_repair arguments w
  = (inl (ValueError invalid_json_error),
     {| dispatches := dispatches w;
        log := log w ++ [LogWarn invalid_json_warning] |}).
Proof.
  intros H1 H2.
  unfold parse_arguments, try_except, call, bind, ret, raise, warn.
  rewrite H1. simpl.
  destruct (JsonRepair_repair arguments) as [e2 | repaired]; [done |].
  by destruct (H2 repaired eq_refl) as [e' ->].
Qed.

End ParseFacts.

(** ** Function-call replies *)

Section FunctionCallFacts.

Context {Value Args : Type}.
Variable literal_eval : string → exn + Value.
Variable JsonRepair_repair : string → exn + string.
Variable ChatCompletion : Request Args → nat → exn + Response.
Variable self_args : Args.

Variables (prepend_prompt : string) (history : list dict)
  (append_prompt : string) (functions : list FunctionSchema).
Variables (w : World) (response : Response) (function_call : FunctionCall).

Hypothesis functions_supplied : functions ≠ [].
Hypothesis reply : ∀ req, ChatCompletion req (dispatches w) = inr response.
Hypothesis reply_calls :
  msg_function_call (message response) = Some function_call.

Let sent : World :=
  after_dispatch w (construct_messages prepend_prompt history append_prompt).

(** The blocking path: the name as received, the reply's content, and
    the arguments parsed once. *)
Lemma generate_response_function_call :
  generate_response_attempt literal_eval ChatCompletion self_args
    prepend_prompt history append_prompt functions w
  = (match literal_eval (fc_arguments function_call) with
     | inr arguments =>
         inr {| content := Some (get_content (message response));
                function_name := Some (fc_name function_call);
                function_arguments := Some arguments;
                send_tokens := prompt_tokens (usage response);
                recv_tokens := completion_tokens (usage response);
                total_tokens := usage_total_tokens (usage response) |}
     | inl e => inl e
     end, sent).
Proof.
  run_attempt. rewrite decide_True by done. simpl.
  rewrite reply, reply_calls.
  by destruct (literal_eval (fc_arguments function_call)).
Qed.

(** The non-blocking path, name not among the schemas. *)
Lemma agenerate_response_invalid_function :
  valid_function functions
    (normalize_function_name (fc_name function_call)) = false →
  agenerate_response_attempt literal_eval JsonRepair_repair ChatCompletion
    self_args prepend_prompt history append_prompt functions w
  = (inl (ValueError
            (invalid_function_error
               (normalize_function_name (fc_name function_call)))),
     {| dispatches := dispatches sent;
        log := log sent
               ++ [LogWarn
                     (invalid_function_warning
                        (normalize_function_name (fc_name function_call)))] |}).
Proof.
  intros Hinvalid. run_attempt. rewrite decide_True by done. simpl.
  rewrite reply, reply_calls, Hinvalid. done.
Qed.

(** The non-blocking path, name among the schemas: the outcome of line
    220-241 decides. *)
Lemma agenerate_response_valid_function :
  valid_function functions
    (normalize_function_name (fc_name function_call)) = true →
  agenerate_response_attempt literal_eval JsonRepair_repair ChatCompletion
    self_args prepend_prompt history append_prompt functions w
  = match parse_arguments literal_eval JsonRepair_repair
            (fc_arguments function_call) sent with
    | (inr arguments, w') =>
        (inr {| content := None;
                function_name :=
                  Some (normalize_function_name (fc_name function_call));
                function_arguments := Some arguments;
                send_tokens := prompt_tokens (usage response);
                recv_tokens := completion_tokens (usage response);
                total_tokens := usage_total_tokens (usage response) |}, w')
    | (inl e, w') => (inl e, w')
    end.
Proof.
  intros Hvalid. run_attempt. rewrite decide_True by done. simpl.
  rewrite reply, reply_calls, Hvalid. simpl.
  by destruct (parse_arguments _ _ _ _) as [[e | v] w'].
Qed.

(** X4: the non-blocking attempt rejects a name that is not among the
    schemas: it logs the warning and raises [ValueError]. *)
Theorem agenerate_rejects_unknown_function :
  valid_function functions
    (normalize_function_name (fc_name function_call)) = false →
  ∃ w',
    agenerate_response_attempt literal_eval JsonRepair_repair ChatCompletion
      self_args prepend_prompt history append_prompt functions w
    = (inl (ValueError
              (invalid_function_error
                 (normalize_function_name (fc_name function_call)))), w')
    ∧ dispatches w' = S (dispatches w)
    ∧ log w'
      = log sent
        ++ [LogWarn
              (invalid_function_warning
                 (normalize_function_name (fc_name function_call)))].
Proof.
  intros Hinvalid. eexists. split; [| split].
  - apply (agenerate_response_invalid_function Hinvalid).
  - reflexivity.
  - reflexivity.
Qed.

(** X5: argument recovery on the non-blocking path, for a name among the
    schemas: arguments that parse are returned as parsed; arguments that
    do not are repaired once and parsed again; when that fails too, the
    attempt logs the warning and raises [ValueError]. *)
Theorem agenerate_argument_recovery :
  valid_function functions
    (normalize_function_name (fc_name function_call)) = true →
  (∀ arguments,
     literal_eval (fc_arguments function_call) = inr arguments →
     ∃ r,
       agenerate_response_attempt literal_eval JsonRepair_repair
         ChatCompletion self_args prepend_prompt history append_prompt
         functions w = (inr r, sent)
       ∧ function_arguments r = Some arguments)
  ∧ (∀ e repaired arguments,
       literal_eval (fc_arguments function_call) = inl e →
       JsonRepair_repair (fc_arguments function_call) = inr repaired →
       literal_eval repaired = inr arguments →
       ∃ r,
         agenerate_response_attempt literal_eval JsonRepair_repair
           ChatCompletion self_args prepend_prompt history append_prompt
           functions w = (inr r, sent)
         ∧ function_arguments r = Some arguments)
  ∧ (∀ e,
       literal_eval (fc_arguments function_call) = inl e →
       (∀ repaired,
          JsonRepair_repair (fc_arguments function_call) = inr repaired →
          ∃ e', literal_eval repaired = inl e') →
       agenerate_response_attempt literal_eval JsonRepair_repair
         ChatCompletion self_args prepend_prompt history append_prompt
         functions w
       = (inl (ValueError invalid_json_error),
          {| dispatches := dispatches sent;
             log := log sent ++ [LogWarn invalid_json_warning] |})).
Proof.
  intros Hvalid. rewrite (agenerate_response_valid_function Hvalid).
  split; [| split].
  - intros v Hparse.
    rewrite (parse_arguments_literal _ _ _ _ _ Hparse). eauto.
  - intros e repaired v Hfail Hrepair Hparse.
    rewrite (parse_arguments_repaired _ _ _ _ _ _ _ Hfail Hrepair Hparse).
    eauto.
  - intros e Hfail Hbad.
    by rewrite (parse_arguments_irreparable _ _ _ _ _ Hfail Hbad).
Qed.

(** ** Where the two entry points part *)

(** C1: the two entry points do not interpret a reply alike.  For a
    function-call reply whose name carries a prefix the normalization
    removes, with a name that is then among the schemas and arguments
    that parse, both calls return at the first attempt, but
    [generate_response] reports the name as received and
    [agenerate_response] the normalized one: the two Results differ. *)
Theorem entry_points_disagree (fuel : nat) (arguments : Value) :
  normalize_function_name (fc_name function_call) ≠ fc_name function_call →
  valid_function functions
    (normalize_function_name (fc_name function_call)) = true →
  literal_eval (fc_arguments function_call) = inr arguments →
  ∃ r_sync r_async,
    generate_response literal_eval ChatCompletion self_args (S fuel)
      prepend_prompt history append_prompt functions w
    = Some (inr r_sync, sent)
    ∧ agenerate_response literal_eval JsonRepair_repair ChatCompletion
        self_args (S fuel) prepend_prompt history append_prompt functions w
      = Some (inr r_async, sent)
    ∧ function_name r_sync = Some (fc_name function_call)
    ∧ function_name r_async
      = Some (normalize_function_name (fc_name function_call))
    ∧ r_sync ≠ r_async.
Proof.
  intros Hprefix Hvalid Hparse.
  eexists _, _. split; [| split; [| split; [| split]]].
  - apply retry_loop_returns.
    rewrite generate_response_function_call, Hparse. reflexivity.
  - apply retry_loop_returns.
    rewrite (agenerate_response_valid_function Hvalid).
    rewrite (parse_arguments_literal _ _ _ _ _ Hparse). reflexivity.
  - reflexivity.
  - reflexivity.
  - intros Heq. apply (f_equal function_name) in Heq. simpl in Heq.
    congruence.
Qed.

(** C2: the repair pass exists on one path only.  For arguments that do
    not parse as they are but do after repair, the attempt of
    [agenerate_response] returns the structure parsed from the repaired
    string, while the attempt of [generate_response] raises the parser's
    exception without calling the repair routine. *)
Theorem blocking_path_skips_repair (e : exn) (repaired : string)
    (arguments : Value) :
  valid_function functions
    (normalize_function_name (fc_name function_call)) = true →
  literal_eval (fc_arguments function_call) = inl e →
  JsonRepair_repair (fc_arguments function_call) = inr repaired →
  literal_eval repaired = inr arguments →
  (∃ r,
     agenerate_response_attempt literal_eval JsonRepair_repair ChatCompletion
       self_args prepend_prompt history append_prompt functions w
     = (inr r, sent)
     ∧ function_arguments r = Some arguments)
  ∧ generate_response_attempt literal_eval ChatCompletion self_args
      prepend_prompt history append_prompt functions w
    = (inl e, sent).
Proof.
  intros Hvalid Hfail Hrepair Hparse. split.
  - eexists. split.
    + rewrite (agenerate_response_valid_function Hvalid).
      rewrite (parse_arguments_repaired _ _ _ _ _ _ _ Hfail Hrepair Hparse).
      reflexivity.
    + reflexivity.
  - by rewrite generate_response_function_call, Hfail.
Qed.

(** C4: a Result of [generate_response] can have both shapes.  For a
    function-call reply that also carries text, with arguments that
    parse, the call returns a Result whose [content] is that text and
    whose function name and arguments are set as well. *)
Theorem blocking_result_has_both_shapes (fuel : nat) (text : string)
    (arguments : Value) :
  msg_content (message response) = Some (PyStr text) →
  literal_eval (fc_arguments function_call) = inr arguments →
  ∃ r,
    generate_response literal_eval ChatCompletion self_args (S fuel)
      prepend_prompt history append_prompt functions w
    = Some (inr r, sent)
    ∧ content r = Some (PyStr text)
    ∧ function_name r = Some (fc_name function_call)
    ∧ function_arguments r = Some arguments
    ∧ text_shape r ∧ call_shape r.
Proof.
  intros Htext Hparse. eexists. split.
  - apply retry_loop_returns.
    rewrite generate_response_function_call, Hparse. reflexivity.
  - unfold text_shape, call_shape, get_content. simpl. rewrite Htext.
    repeat split; eauto.
Qed.

(** C6: the name is checked on one path only.  For a function-call reply
    whose normalized name is not among the schemas, the attempt of
    [agenerate_response] logs the warning and raises [ValueError], while
    the attempt of [generate_response] returns a Result that carries the
    name as received (here with arguments that parse). *)
Theorem blocking_path_skips_validation (arguments : Value) :
  valid_function functions
    (normalize_function_name (fc_name function_call)) = false →
  literal_eval (fc_arguments function_call) = inr arguments →
  (∃ r,
     generate_response_attempt literal_eval ChatCompletion self_args
       prepend_prompt history append_prompt functions w
     = (inr r, sent)
     ∧ function_name r = Some (fc_name function_call))
  ∧ (∃ w',
       agenerate_response_attempt literal_eval JsonRepair_repair
         ChatCompletion self_args prepend_prompt history append_prompt
         functions w
       = (inl (ValueError
                 (invalid_function_error
                    (normalize_function_name (fc_name function_call)))), w')
       ∧ log w'
         = log sent
           ++ [LogWarn
                 (invalid_function_warning
                    (normalize_function_name (fc_name function_call)))]).
Proof.
  intros Hinvalid Hparse. split.
  - eexists. split.
    + rewrite generate_response_function_call, Hparse. reflexivity.
    + reflexivity.
  - eexists. split.
    + apply (agenerate_response_invalid_function Hinvalid).
    + reflexivity.
Qed.

End FunctionCallFacts.

(** ** The theorems at concrete inputs *)

Lemma retry_stops_after_twenty_attempts_witness :
  ∃ e,
    generate_of example_literal_eval example_repair rate_limited tt
      Blocking 20 "" [] "hi" [] empty_world
    = Some (inl e,
            world_before
              (attempt_of example_literal_eval example_repair rate_limited tt
                 Blocking "" [] "hi" [])
              20 empty_world)
    ∧ (attempt_of example_literal_eval example_repair rate_limited tt
         Blocking "" [] "hi" []
         (world_before
            (attempt_of example_literal_eval example_repair rate_limited tt
               Blocking "" [] "hi" [])
            19 empty_world)).1 = inl e
    ∧ dispatches
        (world_before
           (attempt_of example_literal_eval example_repair rate_limited tt
              Blocking "" [] "hi" [])
           20 empty_world)
      = dispatches empty_world + 20.
Proof.
  apply retry_stops_after_twenty_attempts; [lia |].
  intros k _. exists (OpenAIError "rate limit"). split; [| reflexivity].
  apply attempt_dispatch_error. reflexivity.
Defined.

Lemma interrupt_propagates_immediately_witness :
  generate_of example_literal_eval example_repair interrupted_service tt
    NonBlocking 20 "" [] "hi" [search_schema] empty_world
  = Some (inl KeyboardInterrupt,
          world_before
            (attempt_of example_literal_eval example_repair
               interrupted_service tt NonBlocking "" [] "hi" [search_schema])
            3 empty_world)
  ∧ dispatches
      (world_before
         (attempt_of example_literal_eval example_repair
            interrupted_service tt NonBlocking "" [] "hi" [search_schema])
         3 empty_world)
    = dispatches empty_world + 3.
Proof.
  apply interrupt_propagates_immediately; [lia | lia | | reflexivity].
  intros j Hj. exists (OpenAIError "rate limit"). split; [| reflexivity].
  apply attempt_dispatch_error. intros req.
  rewrite world_before_dispatches. unfold interrupted_service. simpl.
  by rewrite decide_True by lia.
Defined.

Lemma construct_messages_frame_witness :
  ∃ messages h' lead trail,
    Heap.construct_messages "You are a bot" 0 "hi" example_heap
    = (inr messages, h')
    ∧ h' !! 0 = Some (Heap.ListObj [1])
    ∧ (∀ l o, example_heap !! l = Some o → h' !! l = Some o)
    ∧ (∀ l d, l ∈ [1] →
         Heap.dict_at example_heap l = Some d → Heap.dict_at h' l = Some d)
    ∧ messages ≠ 0
    ∧ example_heap !! messages = None
    ∧ h' !! messages = Some (Heap.ListObj (lead ++ [1] ++ trail))
    ∧ Forall (λ l, example_heap !! l = None
                   ∧ h' !! l
                     = Some (Heap.DictObj (system_message "You are a bot")))
        lead
    ∧ length lead = (if decide ("You are a bot" ≠ "") then 1 else 0)
    ∧ Forall (λ l, example_heap !! l = None
                   ∧ h' !! l = Some (Heap.DictObj (user_message "hi")))
        trail
    ∧ length trail = (if decide ("hi" ≠ "") then 1 else 0)
    ∧ length (lead ++ [1] ++ trail)
      = length [1]
        + (if decide ("You are a bot" ≠ "") then 1 else 0)
        + (if decide ("hi" ≠ "") then 1 else 0).
Proof.
  apply (HeapFacts.construct_messages_frame "You are a bot" 0 "hi"
           example_heap [1]).
  reflexivity.
Defined.

Lemma entry_points_disagree_witness :
  ∃ r_sync r_async,
    generate_response example_literal_eval
      (calling_service (Some PyNone) "functions.search" "{'q': 'x'}") tt
      20 "" [] "find x" [search_schema] empty_world
    = Some (inr r_sync,
            after_dispatch empty_world (construct_messages "" [] "find x"))
    ∧ agenerate_response example_literal_eval example_repair
        (calling_service (Some PyNone) "functions.search" "{'q': 'x'}") tt
        20 "" [] "find x" [search_schema] empty_world
      = Some (inr r_async,
              after_dispatch empty_world (construct_messages "" [] "find x"))
    ∧ function_name r_sync = Some "functions.search"
    ∧ function_name r_async = Some "search"
    ∧ r_sync ≠ r_async.
Proof.
  apply (entry_points_disagree example_literal_eval example_repair
           (calling_service (Some PyNone) "functions.search" "{'q': 'x'}") tt
           "" [] "find x" [search_schema] empty_world
           (function_call_reply (Some PyNone) "functions.search" "{'q': 'x'}")
           {| fc_name := "functions.search"; fc_arguments := "{'q': 'x'}" |}
           ltac:(discriminate) ltac:(reflexivity) ltac:(reflexivity)
           19 (PyDict [("q", "x")])
           ltac:(discriminate) ltac:(reflexivity) ltac:(reflexivity)).
Defined.

Lemma blocking_path_skips_repair_witness :
  (∃ r,
     agenerate_response_attempt example_literal_eval example_repair
       (calling_service (Some PyNone) "search" "{'q': 'x'") tt
       "" [] "find x" [search_schema] empty_world
     = (inr r, after_dispatch empty_world (construct_messages "" [] "find x"))
     ∧ function_arguments r = Some (PyDict [("q", "x")]))
  ∧ generate_response_attempt example_literal_eval
      (calling_service (Some PyNone) "search" "{'q': 'x'") tt
      "" [] "find x" [search_schema] empty_world
    = (inl (SyntaxError "invalid syntax"),
       after_dispatch empty_world (construct_messages "" [] "find x")).
Proof.
  apply (blocking_path_skips_repair example_literal_eval example_repair
           (calling_service (Some PyNone) "search" "{'q': 'x'") tt
           "" [] "find x" [search_schema] empty_world
           (function_call_reply (Some PyNone) "search" "{'q': 'x'")
           {| fc_name := "search"; fc_arguments := "{'q': 'x'" |}
           ltac:(discriminate) ltac:(reflexivity) ltac:(reflexivity)
           (SyntaxError "invalid syntax") "{'q': 'x'}" (PyDict [("q", "x")])
           ltac:(reflexivity) ltac:(reflexivity) ltac:(reflexivity)
           ltac:(reflexivity)).
Defined.

Lemma blocking_result_has_both_shapes_witness :
  ∃ r,
    generate_response example_literal_eval
      (calling_service (Some (PyStr "Let me look that up.")) "search"
         "{'q': 'x'}") tt
      20 "" [] "find x" [search_schema] empty_world
    = Some (inr r,
            after_dispatch empty_world (construct_messages "" [] "find x"))
    ∧ content r = Some (PyStr "Let me look that up.")
    ∧ function_name r = Some "search"
    ∧ function_arguments r = Some (PyDict [("q", "x")])
    ∧ text_shape r ∧ call_shape r.
Proof.
  apply (blocking_result_has_both_shapes example_literal_eval
           (calling_service (Some (PyStr "Let me look that up.")) "search"
              "{'q': 'x'}") tt
           "" [] "find x" [search_schema] empty_world
           (function_call_reply (Some (PyStr "Let me look that up.")) "search"
              "{'q': 'x'}")
           {| fc_name := "search"; fc_arguments := "{'q': 'x'}" |}
           ltac:(discriminate) ltac:(reflexivity) ltac:(reflexivity)
           19 "Let me look that up." (PyDict [("q", "x")])
           ltac:(reflexivity) ltac:(reflexivity)).
Defined.

Lemma blocking_path_skips_validation_witness :
  (∃ r,
     generate_response_attempt example_literal_eval
       (calling_service (Some PyNone) "lookup" "{'q': 'x'}") tt
       "" [] "find x" [search_schema] empty_world
     = (inr r, after_dispatch empty_world (construct_messages "" [] "find x"))
     ∧ function_name r = Some "lookup")
  ∧ (∃ w',
       agenerate_response_attempt example_literal_eval example_repair
         (calling_service (Some PyNone) "lookup" "{'q': 'x'}") tt
         "" [] "find x" [search_schema] empty_world
       = (inl (ValueError (invalid_function_error "lookup")), w')
       ∧ log w'
         = log (after_dispatch empty_world
                  (construct_messages "" [] "find x"))
           ++ [LogWarn (invalid_function_warning "lookup")]).
Proof.
  apply (blocking_path_skips_validation example_literal_eval example_repair
           (calling_service (Some PyNone) "lookup" "{'q': 'x'}") tt
           "" [] "find x" [search_schema] empty_world
           (function_call_reply (Some PyNone) "lookup" "{'q': 'x'}")
           {| fc_name := "lookup"; fc_arguments := "{'q': 'x'}" |}
           ltac:(discriminate) ltac:(reflexivity) ltac:(reflexivity)
           (PyDict [("q", "x")])
           ltac:(reflexivity) ltac:(reflexivity)).
Defined.

(** ** The scenarios of the specification *)

(** A system prompt, no history, a user prompt and no schemas; the
    service answers "hello" with usage 5, 3, 8. *)
Theorem text_scenario (fuel : nat) :
  generate_response example_literal_eval
    (constant_service (inr (text_reply "hello"))) tt
    (S fuel) "You are a bot" [] "hi" [] empty_world
  = Some (inr {| content := Some (PyStr "hello");
                 function_name := None;
                 function_arguments := None;
                 send_tokens := 5;
                 recv_tokens := 3;
                 total_tokens := 8 |},
          {| dispatches := 1;
             log := [LogPrompt [system_message "You are a bot";
                                user_message "hi"]] |}).
Proof. reflexivity. Qed.

(** The service calls ["functions.search"] with ["{'q': 'x'}"] and
    the schema [search] was supplied: the non-blocking call returns the name
    [search] and the parsed arguments. *)
Theorem function_call_scenario (fuel : nat) :
  agenerate_response example_literal_eval example_repair
    (calling_service (Some PyNone) "functions.search" "{'q': 'x'}") tt
    (S fuel) "" [] "find x" [search_schema] empty_world
  = Some (inr {| content := None;
                 function_name := Some "search";
                 function_arguments := Some (PyDict [("q", "x")]);
                 send_tokens := 5;
                 recv_tokens := 3;
                 total_tokens := 8 |},
          {| dispatches := 1;
             log := [LogPrompt [user_message "find x"]] |}).
Proof. reflexivity. Qed.

Lemma generate_total_witness :
  ∃ out,
    generate_of example_literal_eval example_repair rate_limited tt
      NonBlocking 20 "" [] "hi" [] empty_world = Some out
    ∧ generate_of example_literal_eval example_repair rate_limited tt
        NonBlocking 25 "" [] "hi" [] empty_world = Some out.
Proof. apply generate_total. lia. Defined.

Lemma text_replies_agree_witness :
  generate_response_attempt example_literal_eval
    (constant_service (inr (text_reply "hello"))) tt
    "" [] "hi" [search_schema] empty_world
  = agenerate_response_attempt example_literal_eval example_repair
      (constant_service (inr (text_reply "hello"))) tt
      "" [] "hi" [search_schema] empty_world.
Proof.
  apply text_replies_agree.
  intros _ req response [= <-]. reflexivity.
Defined.

Lemma agenerate_result_one_shape_witness :
  (text_shape
     {| content := Some (PyStr "hello");
        function_name := None;
        function_arguments := @None pyvalue;
        send_tokens := 5; recv_tokens := 3; total_tokens := 8 |}
   ∧ ¬ call_shape
         {| content := Some (PyStr "hello");
            function_name := None;
            function_arguments := @None pyvalue;
            send_tokens := 5; recv_tokens := 3; total_tokens := 8 |})
  ∨ (call_shape
       {| content := Some (PyStr "hello");
          function_name := None;
          function_arguments := @None pyvalue;
          send_tokens := 5; recv_tokens := 3; total_tokens := 8 |}
     ∧ ¬ text_shape
           {| content := Some (PyStr "hello");
              function_name := None;
              function_arguments := @None pyvalue;
              send_tokens := 5; recv_tokens := 3; total_tokens := 8 |}).
Proof.
  apply (agenerate_result_one_shape example_literal_eval example_repair
           (constant_service (inr (text_reply "hello"))) tt
           "" [] "hi" [] empty_world _
           (after_dispatch empty_world (construct_messages "" [] "hi"))).
  reflexivity.
Defined.

Lemma agenerate_rejects_unknown_function_witness :
  ∃ w',
    agenerate_response_attempt example_literal_eval example_repair
      (calling_service (Some PyNone) "lookup" "{'q': 'x'}") tt
      "" [] "find x" [search_schema] empty_world
    = (inl (ValueError (invalid_function_error "lookup")), w')
    ∧ dispatches w' = S (dispatches empty_world)
    ∧ log w'
      = log (after_dispatch empty_world (construct_messages "" [] "find x"))
        ++ [LogWarn (invalid_function_warning "lookup")].
Proof.
  apply (agenerate_rejects_unknown_function example_literal_eval
           example_repair
           (calling_service (Some PyNone) "lookup" "{'q': 'x'}") tt
           "" [] "find x" [search_schema] empty_world
           (function_call_reply (Some PyNone) "lookup" "{'q': 'x'}")
           {| fc_name := "lookup"; fc_arguments := "{'q': 'x'}" |}
           ltac:(discriminate) ltac:(reflexivity) ltac:(reflexivity)
           ltac:(reflexivity)).
Defined.

Lemma agenerate_argument_recovery_witness :
  ∃ r,
    agenerate_response_attempt example_literal_eval example_repair
      (calling_service (Some PyNone) "search" "{'q': 'x'") tt
      "" [] "find x" [search_schema] empty_world
    = (inr r, after_dispatch empty_world (construct_messages "" [] "find x"))
    ∧ function_arguments r = Some (PyDict [("q", "x")]).
Proof.
  apply (proj1 (proj2
           (agenerate_argument_recovery example_literal_eval example_repair
              (calling_service (Some PyNone) "search" "{'q': 'x'") tt
              "" [] "find x" [search_schema] empty_world
              (function_call_reply (Some PyNone) "search" "{'q': 'x'")
              {| fc_name := "search"; fc_arguments := "{'q': 'x'" |}
              ltac:(discriminate) ltac:(reflexivity) ltac:(reflexivity)
              ltac:(reflexivity)))
           (SyntaxError "invalid syntax") "{'q': 'x'}" (PyDict [("q", "x")])
           ltac:(reflexivity) ltac:(reflexivity) ltac:(reflexivity)).
Defined.

Lemma construct_messages_value_witness :
  ∃ messages h',
    Heap.construct_messages "You are a bot" 0 "hi" example_heap
    = (inr messages, h')
    ∧ Heap.list_value h' messages
      = Some (construct_messages "You are a bot" [user_message "earlier"] "hi").
Proof.
  apply (construct_messages_value "You are a bot" 0 "hi" example_heap
           [user_message "earlier"]).
  reflexivity.
Defined.

(** ** Loading the module *)

(** X8: the client is available exactly when the vendor package imports and
    [OPENAI_API_KEY] is set; a warning is logged exactly when it is not
    available, and never more than one. *)
Theorem load_available_iff (installed : bool) (environ : gmap string string) :
  (is_openai_available (load installed environ) = true
   ↔ installed = true ∧ is_Some (environ !! "OPENAI_API_KEY"))
  ∧ (load_warnings (load installed environ) = []
     ↔ is_openai_available (load installed environ) = true)
  ∧ length (load_warnings (load installed environ)) ≤ 1.
Proof.
  unfold load.
  destruct installed; [destruct (environ !! "OPENAI_API_KEY") as [key |] |];
    simpl; repeat split; try done; try lia; eauto;
    first [intros [_ [? ?]]; done | intros [? _]; done].
Qed.

(** X9: with the package imported, the key and the proxy are read from the
    environment whether or not the key is set; [http_proxy] wins over
    [HTTP_PROXY], which is consulted only when the former is unset. *)
Theorem load_proxy_precedence (environ : gmap string string) :
  ∃ module,
    openai (load true environ) = Some module
    ∧ api_key module = environ !! "OPENAI_API_KEY"
    ∧ (∀ p, environ !! "http_proxy" = Some p → proxy module = Some p)
    ∧ (environ !! "http_proxy" = None
       → proxy module = environ !! "HTTP_PROXY").
Proof.
  unfold load.
  destruct (environ !! "OPENAI_API_KEY") as [key |];
    eexists; (split; [reflexivity |]); simpl;
    (split; [reflexivity |]);
    destruct (environ !! "http_proxy") as [p |]; split; try done.
Qed.

(** ** The constructor *)

Section InitFacts.

Context {V : Type}.
Implicit Types (items defaults : list (string * V)) (kwargs : gmap string V).

Lemma override_fresh_key items kwargs k :
  k ∉ items.*1 →
  map (chosen (delete k kwargs)) items = map (chosen kwargs) items.
Proof.
  induction items as [| [k' v'] items IH]; [done |].
  rewrite fmap_cons. intros [Hne Hrest]%not_elem_of_cons. simpl.
  rewrite IH by done. unfold chosen at 1 3. simpl.
  by rewrite lookup_delete_ne.
Qed.

Lemma override_args items kwargs :
  NoDup items.*1 →
  (override items kwargs).1 = map (chosen kwargs) items.
Proof.
  revert kwargs. induction items as [| [k v] items IH]; intros kwargs Hnd;
    [done |].
  rewrite fmap_cons in Hnd. apply NoDup_cons in Hnd as [Hk Hnd].
  simpl. specialize (IH (delete k kwargs) Hnd).
  destruct (override items (delete k kwargs)) as [args kwargs'].
  simpl in *. rewrite IH, override_fresh_key by done. done.
Qed.

Lemma override_leftover items kwargs :
  (override items kwargs).2 = filter (λ kv, kv.1 ∉ items.*1) kwargs.
Proof.
  revert kwargs. induction items as [| [k v] items IH]; intros kwargs.
  - simpl. symmetry. apply map_filter_id. intros i x _. simpl.
    apply not_elem_of_nil.
  - simpl. specialize (IH (delete k kwargs)).
    destruct (override items (delete k kwargs)) as [args kwargs'].
    simpl in *. rewrite IH. apply map_eq. intros i. apply option_eq.
    intros x. rewrite !map_lookup_filter_Some, lookup_delete_Some. simpl.
    rewrite not_elem_of_cons. intuition congruence.
Qed.

Lemma unused_empty_iff (keys : list string) kwargs :
  filter (λ kv, kv.1 ∉ keys) kwargs = ∅
  ↔ ∀ k x, kwargs !! k = Some x → k ∈ keys.
Proof.
  rewrite map_empty. split.
  - intros Hall k x Hk. specialize (Hall k).
    apply map_lookup_filter_None in Hall as [Hnone | Hnot]; [congruence |].
    destruct (decide (k ∈ keys)) as [|Hout]; [done |].
    destruct (Hnot x Hk Hout).
  - intros Hall k. apply map_lookup_filter_None.
    destruct (kwargs !! k) as [x |] eqn:Hk; [right | by left].
    intros y [= <-] Hout. apply Hout. simpl. eauto.
Qed.

Lemma override_empty items : override items (∅ : gmap string V) = (items, ∅).
Proof.
  induction items as [| [k v] items IH]; [done |].
  simpl. rewrite delete_empty, IH. by rewrite lookup_empty.
Qed.

Lemma chosen_keys kwargs items : (map (chosen kwargs) items).*1 = items.*1.
Proof. induction items as [| [k v] items IH]; [done |]. simpl. by f_equal. Qed.

(** X10: the constructor keeps the fields of the defaults, in their order,
    and gives each the caller's value when [kwargs] names the field and
    the default otherwise; [max_retry] is 3 unless passed. *)
Theorem init_overrides_fields defaults max_retry kwargs :
  NoDup defaults.*1 →
  init_args (OpenAIChat_init defaults max_retry kwargs).1
  = map (chosen kwargs) defaults
  ∧ (init_args (OpenAIChat_init defaults max_retry kwargs).1).*1
    = defaults.*1
  ∧ init_max_retry (OpenAIChat_init defaults max_retry kwargs).1
    = default 3%Z max_retry.
Proof.
  intros Hnd. unfold OpenAIChat_init.
  pose proof (override_args defaults kwargs Hnd) as Hargs.
  destruct (override defaults kwargs) as [args leftover]. simpl in *.
  subst args. by rewrite chosen_keys.
Qed.

(** X11: keyword arguments that name no field are never stored: they are
    what is left in [kwargs] after the loop, and the constructor logs one
    warning with exactly these when there are any, and none otherwise. *)
Theorem init_warns_unused defaults max_retry kwargs :
  let unused := filter (λ kv, kv.1 ∉ defaults.*1) kwargs in
  (OpenAIChat_init defaults max_retry kwargs).2
  = (if decide (unused = ∅) then [] else [UnusedArguments unused])
  ∧ ((OpenAIChat_init defaults max_retry kwargs).2 = []
     ↔ ∀ k, is_Some (kwargs !! k) → k ∈ defaults.*1).
Proof.
  intros unused. unfold OpenAIChat_init.
  pose proof (override_leftover defaults kwargs) as Hleft.
  destruct (override defaults kwargs) as [args leftover]. simpl in *.
  subst leftover. fold unused.
  assert (unused = ∅ ↔ ∀ k, is_Some (kwargs !! k) → k ∈ defaults.*1) as Hiff.
  { subst unused. rewrite unused_empty_iff. split.
    - intros Hall k [x Hk]. eauto.
    - intros Hall k x Hk. apply Hall. eauto. }
  destruct (decide (unused = ∅)) as [Hempty | Hsome].
  - rewrite Hempty, map_size_empty. simpl. split; [done |].
    split; [intros _; by apply Hiff | done].
  - rewrite decide_True.
    + split; [done |]. split; [done |]. intros Hall. by apply Hiff in Hall.
    + apply map_size_non_empty_iff in Hsome. lia.
Qed.

(** X12: with no keyword arguments the constructor stores the defaults
    unchanged, takes [max_retry] to be 3 and logs nothing. *)
Theorem init_without_arguments defaults :
  OpenAIChat_init defaults None (∅ : gmap string V)
  = ({| init_args := defaults; init_max_retry := 3 |}, []).
Proof.
  unfold OpenAIChat_init. rewrite override_empty.
  by rewrite decide_False by (rewrite map_size_empty; lia).
Qed.

(** X13: constructing again from the arguments a construction stored gives
    the same arguments and logs nothing. *)
Theorem init_idempotent defaults max_retry max_retry' kwargs :
  NoDup defaults.*1 →
  OpenAIChat_init defaults max_retry'
    (list_to_map (init_args (OpenAIChat_init defaults max_retry kwargs).1))
  = ({| init_args := init_args (OpenAIChat_init defaults max_retry kwargs).1;
        init_max_retry := default 3%Z max_retry' |}, []).
Proof.
  intros Hnd.
  pose proof (override_args defaults kwargs Hnd) as Hargs.
  unfold OpenAIChat_init at 2 3.
  destruct (override defaults kwargs) as [args dropped]. simpl in *.
  subst args. clear dropped. set (stored := map (chosen kwargs) defaults).
  assert (NoDup stored.*1) as Hnd' by (subst stored; by rewrite chosen_keys).
  unfold OpenAIChat_init.
  pose proof (override_args defaults (list_to_map stored) Hnd) as Hagain.
  pose proof (override_leftover defaults (list_to_map stored)) as Hleft.
  destruct (override defaults (list_to_map stored)) as [args leftover].
  simpl in *. subst args.
  assert (leftover = ∅) as ->.
  { rewrite Hleft. apply unused_empty_iff. intros k x Hk.
    apply elem_of_list_to_map_2 in Hk.
    rewrite <- (chosen_keys kwargs defaults). fold stored.
    apply list_elem_of_fmap. by exists (k, x). }
  rewrite map_size_empty, decide_False by lia. f_equal. f_equal.
  subst stored. apply map_ext_in. intros [k v] Hin%list_elem_of_In.
  unfold chosen at 1. simpl.
  erewrite elem_of_list_to_map_1; [reflexivity | done |].
  apply list_elem_of_fmap. by exists (k, v).
Qed.

End InitFacts.

(** ** More on the retry loop *)

Section RetryBounds.

Context {A : Type} (fn : M A).

(** When every attempt sends one request, a finished loop has sent at
    least one and at most as many as attempts remained. *)
Lemma retry_loop_dispatch_bounds max fuel a w out w' :
  (∀ w0, dispatches (fn w0).2 = S (dispatches w0)) →
  a ≤ max →
  retry_loop fuel (stop_after_attempt max) a fn w = Some (out, w') →
  dispatches w < dispatches w' ∧ dispatches w' ≤ dispatches w + (max - a + 1).
Proof.
  intros Hone. revert a w.
  induction fuel as [|fuel IH]; intros a w Ha Hrun; [done |].
  simpl in Hrun. specialize (Hone w).
  destruct (fn w) as [[e | r] w1]; simpl in Hone.
  - destruct (is_Exception e); simpl in Hrun.
    + unfold stop_after_attempt at 1 in Hrun. case_bool_decide.
      * injection Hrun as <- <-. lia.
      * apply IH in Hrun; lia.
    + injection Hrun as <- <-. lia.
  - injection Hrun as <- <-. lia.
Qed.

(** When every attempt sends one request and logs one and the same
    event, a finished loop leaves the world of so many attempts. *)
Lemma retry_loop_uniform_log max fuel a w out w' ev :
  (∀ w0, (fn w0).2 = {| dispatches := S (dispatches w0);
                        log := log w0 ++ [ev] |}) →
  a ≤ max →
  retry_loop fuel (stop_after_attempt max) a fn w = Some (out, w') →
  ∃ k, 1 ≤ k ≤ max - a + 1
       ∧ dispatches w' = dispatches w + k
       ∧ log w' = log w ++ replicate k ev.
Proof.
  intros Hone. revert a w.
  induction fuel as [|fuel IH]; intros a w Ha Hrun; [done |].
  simpl in Hrun. specialize (Hone w).
  destruct (fn w) as [[e | r] w1]; simpl in Hone; subst w1.
  - destruct (is_Exception e); simpl in Hrun.
    + unfold stop_after_attempt at 1 in Hrun. case_bool_decide.
      * injection Hrun as <- <-. exists 1. simpl. repeat split; lia.
      * apply IH in Hrun as (k & Hk & Hd & Hl); [| lia].
        exists (S k). simpl in *. rewrite Hd, Hl, <- app_assoc.
        repeat split; lia.
    + injection Hrun as <- <-. exists 1. simpl. repeat split; lia.
  - injection Hrun as <- <-. exists 1. simpl. repeat split; lia.
Qed.

End RetryBounds.

Lemma valid_function_elem (functions : list FunctionSchema) (n : string) :
  valid_function functions n = true ↔ ∃ f, f ∈ functions ∧ name f = n.
Proof.
  induction functions as [|f functions IH]; simpl.
  - split; [done | intros (f & Hf & _); by apply elem_of_nil in Hf].
  - case_decide as Hname.
    + split; [intros _ | done]. exists f. split; [left | done].
    + rewrite IH. split.
      * intros (g & Hg & Hn). exists g. split; [by right | done].
      * intros (g & Hg & Hn). apply elem_of_cons in Hg as [-> | Hg]; [done |].
        eauto.
Qed.

(** ** What an attempt sends, reads and returns *)

Section AttemptFacts.

Context {Value Args : Type}.
Variable literal_eval : string → exn + Value.
Variable JsonRepair_repair : string → exn + string.
Variable self_args : Args.

Implicit Types (service : Request Args → nat → exn + Response).
Implicit Types (mode : entry_point) (w : World).

(** X14: an attempt consults the service once: with the assembled messages,
    with [functions] exactly when there are any, with the client's
    request arguments, and as the next request in line.  Two services
    that answer this one request alike give the same attempt. *)
Theorem attempt_reads_one_reply service service' mode pre hist app fns w :
  service (request_sent self_args pre hist app fns) (dispatches w)
  = service' (request_sent self_args pre hist app fns) (dispatches w) →
  attempt_of literal_eval JsonRepair_repair service self_args
    mode pre hist app fns w
  = attempt_of literal_eval JsonRepair_repair service' self_args
      mode pre hist app fns w.
Proof.
  unfold request_sent. intros Hsame.
  destruct mode; run_attempt; case_decide; simpl; by rewrite Hsame.
Qed.

(** X15: a Result carries the usage counters of the reply to the attempt's
    request, and a Result without a function name carries that reply's
    content. *)
Theorem result_carries_usage service mode pre hist app fns w r w' :
  attempt_of literal_eval JsonRepair_repair service self_args
    mode pre hist app fns w = (inr r, w') →
  ∃ response,
    service (request_sent self_args pre hist app fns) (dispatches w)
    = inr response
    ∧ send_tokens r = prompt_tokens (usage response)
    ∧ recv_tokens r = completion_tokens (usage response)
    ∧ total_tokens r = usage_total_tokens (usage response)
    ∧ (function_name r = None →
       content r = msg_content (message response)).
Proof.
  unfold request_sent.
  destruct mode; run_attempt; case_decide; simpl;
    (destruct (service _ _) as [e | response]; [done |]);
    unfold parse_arguments, try_except, call, warn, bind, ret, raise;
    repeat (case_match; simplify_eq; simpl in *; try done);
    intros; simplify_eq; exists response; simpl;
    repeat split; congruence.
Qed.

(** X16: with no schemas supplied a function call in the reply is not looked
    at: the attempt returns the reply's content, and raises [KeyError]
    when the reply has no content key. *)
Theorem attempt_without_schemas service mode pre hist app w response :
  service (request_sent self_args pre hist app []) (dispatches w)
  = inr response →
  attempt_of literal_eval JsonRepair_repair service self_args
    mode pre hist app [] w
  = (match msg_content (message response) with
     | Some text =>
         inr {| content := Some text;
                function_name := None;
                function_arguments := None;
                send_tokens := prompt_tokens (usage response);
                recv_tokens := completion_tokens (usage response);
                total_tokens := usage_total_tokens (usage response) |}
     | None => inl (KeyError "content")
     end,
     after_dispatch w (construct_messages pre hist app)).
Proof.
  unfold request_sent. rewrite decide_False by (intros H; by apply H).
  intros Hreply.
  destruct mode; run_attempt; rewrite Hreply;
    by destruct (msg_content (message response)).
Qed.

(** X17: lines 220-241 let no exception of the parser or of the repair
    routine out: whatever they raise becomes the one [ValueError], after
    one warning; and arguments that are returned were parsed from the
    string itself or from its repair, with nothing logged. *)
Theorem parse_arguments_outcomes arguments w :
  match parse_arguments literal_eval JsonRepair_repair arguments w with
  | (inl e, w') =>
      e = ValueError invalid_json_error
      ∧ w' = {| dispatches := dispatches w;
                log := log w ++ [LogWarn invalid_json_warning] |}
      ∧ (∃ e', literal_eval arguments = inl e')
  | (inr v, w') =>
      w' = w
      ∧ (literal_eval arguments = inr v
         ∨ ∃ e' repaired,
             literal_eval arguments = inl e'
             ∧ JsonRepair_repair arguments = inr repaired
             ∧ literal_eval repaired = inr v)
  end.
Proof.
  unfold parse_arguments, try_except, call, warn, bind, ret, raise,
    any_exception.
  destruct (literal_eval arguments) as [e1 | v] eqn:H1; simpl; [| eauto].
  destruct (JsonRepair_repair arguments) as [e2 | repaired] eqn:H2; simpl;
    [eauto |].
  destruct (literal_eval repaired) as [e3 | v] eqn:H3; simpl; [eauto |].
  split; [done |]. right. eauto.
Qed.

(** X18: the non-blocking attempt never returns a function name that is not
    the name of a supplied schema. *)
Theorem agenerate_function_name_is_supplied service pre hist app fns w r w' n :
  agenerate_response_attempt literal_eval JsonRepair_repair service
    self_args pre hist app fns w = (inr r, w') →
  function_name r = Some n →
  ∃ f, f ∈ fns ∧ name f = n.
Proof.
  run_attempt. case_decide; simpl;
    (destruct (service _ _) as [e | response]; [done |]);
    unfold parse_arguments, try_except, call, warn, bind, ret, raise;
    repeat (case_match; simplify_eq; simpl in *; try done);
    intros; simplify_eq; simpl in *; simplify_eq;
    apply valid_function_elem;
    match goal with
    | H : negb _ = false |- _ => by apply negb_false_iff in H
    end.
Qed.

(** The blocking attempt never logs a warning: it sends one request and
    logs the prompt, whatever the reply. *)
Lemma generate_response_attempt_world service pre hist app fns w :
  (generate_response_attempt literal_eval service self_args
     pre hist app fns w).2
  = after_dispatch w (construct_messages pre hist app).
Proof.
  run_attempt. unfold after_dispatch.
  case_decide; simpl; destruct (service _ _) as [e | response]; try done;
    repeat (case_match; simplify_eq; simpl in *; try done).
Qed.

(** X20: a call sends at least one request and at most twenty. *)
Theorem generate_dispatch_bounds service mode fuel pre hist app fns w out w' :
  generate_of literal_eval JsonRepair_repair service self_args
    mode fuel pre hist app fns w = Some (out, w') →
  dispatches w < dispatches w' ∧ dispatches w' ≤ dispatches w + 20.
Proof.
  rewrite generate_of_retry. unfold retry. intros Hrun.
  apply retry_loop_dispatch_bounds in Hrun; [lia | | lia].
  intros w0. apply attempt_dispatches.
Qed.

(** X21: a call of [generate_response] that made [k] attempts has logged the
    same prompt [k] times and nothing else. *)
Theorem generate_response_log service fuel pre hist app fns w out w' :
  generate_response literal_eval service self_args fuel pre hist app fns w
  = Some (out, w') →
  ∃ k, 1 ≤ k ≤ 20
       ∧ dispatches w' = dispatches w + k
       ∧ log w'
         = log w ++ replicate k (LogPrompt (construct_messages pre hist app)).
Proof.
  unfold generate_response, retry. intros Hrun.
  eapply retry_loop_uniform_log in Hrun as (k & Hk & Hd & Hl);
    [exists k; repeat split; [lia | lia | done | done] | | lia].
  intros w0. by rewrite generate_response_attempt_world.
Qed.

(** X22: when the first [k] attempts fail with retried exceptions and the
    next one returns, the call returns that Result after [k + 1]
    requests. *)
Theorem generate_returns_first_success
    service mode fuel pre hist app fns w k r w' :
  20 ≤ fuel → k < 20 →
  (∀ j, j < k →
     fails_retryably
       (attempt_of literal_eval JsonRepair_repair service self_args
          mode pre hist app fns)
       (world_before
          (attempt_of literal_eval JsonRepair_repair service self_args
             mode pre hist app fns) j w)) →
  attempt_of literal_eval JsonRepair_repair service self_args
    mode pre hist app fns
    (world_before
       (attempt_of literal_eval JsonRepair_repair service self_args
          mode pre hist app fns) k w)
  = (inr r, w') →
  generate_of literal_eval JsonRepair_repair service self_args
    mode fuel pre hist app fns w = Some (inr r, w')
  ∧ dispatches w' = dispatches w + S k.
Proof.
  intros Hfuel Hk Hfail Hok. split.
  - rewrite generate_of_retry. unfold retry.
    replace fuel with (k + S (fuel - S k)) by lia.
    rewrite retry_loop_failures; [| done | lia].
    by apply retry_loop_returns.
  - pose proof (attempt_dispatches literal_eval JsonRepair_repair service
                  self_args mode pre hist app fns
                  (world_before
                     (attempt_of literal_eval JsonRepair_repair service
                        self_args mode pre hist app fns) k w)) as Hd.
    rewrite Hok in Hd. simpl in Hd.
    rewrite Hd, world_before_dispatches. lia.
Qed.

(** X26: a function-call Result of the blocking attempt is the reply
    taken as it is: schemas were supplied, the name is the reply's name
    unchanged, the arguments are the reply's argument string parsed once,
    and the content is the reply's content, or the empty string when the
    reply has no content key. *)
Theorem generate_function_result_is_verbatim
    service pre hist app fns w r w' n :
  generate_response_attempt literal_eval service self_args
    pre hist app fns w = (inr r, w') →
  function_name r = Some n →
  ∃ response function_call arguments,
    fns ≠ []
    ∧ service (request_sent self_args pre hist app fns) (dispatches w)
      = inr response
    ∧ msg_function_call (message response) = Some function_call
    ∧ n = fc_name function_call
    ∧ literal_eval (fc_arguments function_call) = inr arguments
    ∧ function_arguments r = Some arguments
    ∧ content r = Some (default (PyStr "") (msg_content (message response))).
Proof.
  unfold request_sent.
  run_attempt. case_decide; simpl;
    (destruct (service _ _) as [e | response] eqn:Hreply; [done |]);
    repeat (case_match; simplify_eq; simpl in *; try done);
    intros; simplify_eq; simpl in *; simplify_eq.
  eexists response, _, _. repeat split; eauto.
Qed.

End AttemptFacts.

(** ** More on message assembly *)

(** X23: with a non-empty [append_prompt] the last message of the assembled
    list is the user message with that content, whatever comes before. *)
Theorem construct_messages_last_user
    (prepend_prompt : string) (history : list dict) (append_prompt : string) :
  append_prompt ≠ "" →
  last (construct_messages prepend_prompt history append_prompt)
  = Some (user_message append_prompt).
Proof.
  intros Hne. rewrite construct_messages_eq.
  rewrite (decide_True (P := append_prompt ≠ "")) by done.
  by rewrite !app_assoc, last_snoc.
Qed.

(** X24: assembly splits over a split of the history: the system message
    goes with the first part and the user message with the second. *)
Theorem construct_messages_app
    (prepend_prompt : string) (history1 history2 : list dict)
    (append_prompt : string) :
  construct_messages prepend_prompt (history1 ++ history2) append_prompt
  = construct_messages prepend_prompt history1 ""
    ++ construct_messages "" history2 append_prompt.
Proof.
  rewrite !construct_messages_eq.
  rewrite !(decide_False (P := "" ≠ "")) by (intros H; by apply H).
  by rewrite app_nil_r, app_nil_l, <- !app_assoc.
Qed.

(** X25: the returned list is the caller's to change: appending to it leaves
    the [history] list as it was. *)
Theorem appending_to_result_keeps_history
    (prepend_prompt : string) (history : Heap.loc) (append_prompt : string)
    (h : Heap.heap) (items : list Heap.loc) (x : Heap.loc) :
  h !! history = Some (Heap.ListObj items) →
  ∃ messages h' h'' built,
    Heap.construct_messages prepend_prompt history append_prompt h
    = (inr messages, h')
    ∧ h' !! messages = Some (Heap.ListObj built)
    ∧ Heap.append messages x h' = (inr tt, h'')
    ∧ h'' !! messages = Some (Heap.ListObj (built ++ [x]))
    ∧ h'' !! history = Some (Heap.ListObj items).
Proof.
  intros Hhist.
  destruct (HeapFacts.construct_messages_run prepend_prompt history
              append_prompt h items Hhist)
    as (m & h' & lead & trail & Hrun & Hframe & Hhist' & Hnew & Hm & _).
  assert (m ≠ history) as Hne by (intros ->; congruence).
  exists m, h', (<[m := Heap.ListObj ((lead ++ items ++ trail) ++ [x])]> h'),
    (lead ++ items ++ trail).
  split; [done |]. split; [done |]. split; [| split].
  - unfold Heap.append, Heap.list_items, bind. by rewrite Hm.
  - by rewrite lookup_insert_eq.
  - by rewrite lookup_insert_ne.
Qed.

(** ** The added theorems at concrete inputs *)

Lemma example_fields_distinct : NoDup OpenAIChatArgs_dict.*1.
Proof. apply (bool_decide_unpack _). vm_compute. exact I. Qed.

Lemma init_overrides_fields_witness :
  init_args
    (OpenAIChat_init OpenAIChatArgs_dict (Some 5%Z)
       {[ "model" := ArgStr "gpt-4"; "verbose" := ArgInt 1 ]}).1
  = map (chosen {[ "model" := ArgStr "gpt-4"; "verbose" := ArgInt 1 ]})
      OpenAIChatArgs_dict
  ∧ (init_args
       (OpenAIChat_init OpenAIChatArgs_dict (Some 5%Z)
          {[ "model" := ArgStr "gpt-4"; "verbose" := ArgInt 1 ]}).1).*1
    = OpenAIChatArgs_dict.*1
  ∧ init_max_retry
      (OpenAIChat_init OpenAIChatArgs_dict (Some 5%Z)
         {[ "model" := ArgStr "gpt-4"; "verbose" := ArgInt 1 ]}).1
    = default 3%Z (Some 5%Z).
Proof. apply init_overrides_fields. exact example_fields_distinct. Defined.

Lemma init_idempotent_witness :
  OpenAIChat_init OpenAIChatArgs_dict None
    (list_to_map
       (init_args
          (OpenAIChat_init OpenAIChatArgs_dict None
             {[ "model" := ArgStr "gpt-4" ]}).1))
  = ({| init_args :=
          init_args
            (OpenAIChat_init OpenAIChatArgs_dict None
               {[ "model" := ArgStr "gpt-4" ]}).1;
        init_max_retry := default 3%Z None |}, []).
Proof. apply init_idempotent. exact example_fields_distinct. Defined.

Lemma attempt_reads_one_reply_witness :
  attempt_of example_literal_eval example_repair rate_limited tt
    NonBlocking "" [] "hi" [search_schema] empty_world
  = attempt_of example_literal_eval example_repair interrupted_service tt
      NonBlocking "" [] "hi" [search_schema] empty_world.
Proof. apply attempt_reads_one_reply. reflexivity. Defined.

Lemma result_carries_usage_witness :
  ∃ response,
    calling_service (Some PyNone) "functions.search" "{'q': 'x'}"
      (request_sent tt "" [] "find x" [search_schema]) (dispatches empty_world)
    = inr response
    ∧ send_tokens
        {| content := None;
           function_name := Some "search";
           function_arguments := Some (PyDict [("q", "x")]);
           send_tokens := 5; recv_tokens := 3; total_tokens := 8 |}
      = prompt_tokens (usage response)
    ∧ recv_tokens
        {| content := None;
           function_name := Some "search";
           function_arguments := Some (PyDict [("q", "x")]);
           send_tokens := 5; recv_tokens := 3; total_tokens := 8 |}
      = completion_tokens (usage response)
    ∧ total_tokens
        {| content := None;
           function_name := Some "search";
           function_arguments := Some (PyDict [("q", "x")]);
           send_tokens := 5; recv_tokens := 3; total_tokens := 8 |}
      = usage_total_tokens (usage response)
    ∧ (function_name
         {| content := None;
            function_name := Some "search";
            function_arguments := Some (PyDict [("q", "x")]);
            send_tokens := 5; recv_tokens := 3; total_tokens := 8 |}
       = None →
       content
         {| content := None;
            function_name := Some "search";
            function_arguments := Some (PyDict [("q", "x")]);
            send_tokens := 5; recv_tokens := 3; total_tokens := 8 |}
       = msg_content (message response)).
Proof.
  apply (result_carries_usage example_literal_eval example_repair tt
           (calling_service (Some PyNone) "functions.search" "{'q': 'x'}")
           NonBlocking "" [] "find x" [search_schema] empty_world _
           (after_dispatch empty_world (construct_messages "" [] "find x"))).
  reflexivity.
Defined.

Lemma attempt_without_schemas_witness :
  attempt_of example_literal_eval example_repair
    (calling_service (Some (PyStr "No tools here.")) "search" "{'q': 'x'}") tt
    NonBlocking "" [] "find x" [] empty_world
  = (match
       msg_content
         (message
            (function_call_reply (Some (PyStr "No tools here.")) "search"
               "{'q': 'x'}"))
     with
     | Some text =>
         inr {| content := Some text;
                function_name := None;
                function_arguments := None;
                send_tokens := 5; recv_tokens := 3; total_tokens := 8 |}
     | None => inl (KeyError "content")
     end,
     after_dispatch empty_world (construct_messages "" [] "find x")).
Proof.
  apply (attempt_without_schemas example_literal_eval example_repair tt
           (calling_service (Some (PyStr "No tools here.")) "search"
              "{'q': 'x'}")
           NonBlocking "" [] "find x" empty_world
           (function_call_reply (Some (PyStr "No tools here.")) "search"
              "{'q': 'x'}")).
  reflexivity.
Defined.

Lemma agenerate_function_name_is_supplied_witness :
  ∃ f, f ∈ [search_schema] ∧ name f = "search".
Proof.
  apply (agenerate_function_name_is_supplied example_literal_eval
           example_repair tt
           (calling_service (Some PyNone) "functions.search" "{'q': 'x'}")
           "" [] "find x" [search_schema] empty_world
           {| content := None;
              function_name := Some "search";
              function_arguments := Some (PyDict [("q", "x")]);
              send_tokens := 5; recv_tokens := 3; total_tokens := 8 |}
           (after_dispatch empty_world (construct_messages "" [] "find x"))
           "search");
    reflexivity.
Defined.

Lemma generate_dispatch_bounds_witness :
  dispatches empty_world < 3 ∧ 3 ≤ dispatches empty_world + 20.
Proof.
  apply (generate_dispatch_bounds example_literal_eval example_repair tt
           recovering_service Blocking 20 "" [] "hi" [] empty_world
           (inr {| content := Some (PyStr "hello");
                   function_name := None;
                   function_arguments := None;
                   send_tokens := 5; recv_tokens := 3; total_tokens := 8 |})
           {| dispatches := 3;
              log := replicate 3 (LogPrompt (construct_messages "" [] "hi")) |}).
  reflexivity.
Defined.

Lemma generate_response_log_witness :
  ∃ k, 1 ≤ k ≤ 20
       ∧ 3 = dispatches empty_world + k
       ∧ replicate 3 (LogPrompt (construct_messages "" [] "hi"))
         = log empty_world
           ++ replicate k (LogPrompt (construct_messages "" [] "hi")).
Proof.
  apply (generate_response_log example_literal_eval tt
           recovering_service 20 "" [] "hi" [] empty_world
           (inr {| content := Some (PyStr "hello");
                   function_name := None;
                   function_arguments := None;
                   send_tokens := 5; recv_tokens := 3; total_tokens := 8 |})
           {| dispatches := 3;
              log := replicate 3 (LogPrompt (construct_messages "" [] "hi")) |}).
  reflexivity.
Defined.

Lemma generate_returns_first_success_witness :
  generate_of example_literal_eval example_repair recovering_service tt
    NonBlocking 20 "" [] "hi" [] empty_world
  = Some (inr {| content := Some (PyStr "hello");
                 function_name := None;
                 function_arguments := None;
                 send_tokens := 5; recv_tokens := 3; total_tokens := 8 |},
          {| dispatches := 3;
             log := replicate 3 (LogPrompt (construct_messages "" [] "hi")) |})
  ∧ 3 = dispatches empty_world + 3.
Proof.
  apply (generate_returns_first_success example_literal_eval example_repair
           tt recovering_service NonBlocking 20 "" [] "hi" [] empty_world 2);
    [lia | lia | | reflexivity].
  intros j Hj. exists (OpenAIError "rate limit").
  destruct j as [| [| j]]; [by vm_compute | by vm_compute | lia].
Defined.

Lemma construct_messages_last_user_witness :
  last (construct_messages "" [system_message "rules"] "hi")
  = Some (user_message "hi").
Proof. apply construct_messages_last_user. discriminate. Defined.

Lemma appending_to_result_keeps_history_witness :
  ∃ messages h' h'' built,
    Heap.construct_messages "You are a bot" 0 "hi" example_heap
    = (inr messages, h')
    ∧ h' !! messages = Some (Heap.ListObj built)
    ∧ Heap.append messages 1 h' = (inr tt, h'')
    ∧ h'' !! messages = Some (Heap.ListObj (built ++ [1]))
    ∧ h'' !! 0 = Some (Heap.ListObj [1]).
Proof.
  apply (appending_to_result_keeps_history "You are a bot" 0 "hi"
           example_heap [1] 1).
  reflexivity.
Defined.

Lemma generate_function_result_is_verbatim_witness :
  ∃ response function_call arguments,
    [search_schema] ≠ []
    ∧ calling_service None "functions.search" "{'q': 'x'}"
        (request_sent tt "" [] "find x" [search_schema])
        (dispatches empty_world)
      = inr response
    ∧ msg_function_call (message response) = Some function_call
    ∧ "functions.search" = fc_name function_call
    ∧ example_literal_eval (fc_arguments function_call) = inr arguments
    ∧ function_arguments
        {| content := Some (PyStr "");
           function_name := Some "functions.search";
           function_arguments := Some (PyDict [("q", "x")]);
           send_tokens := 5; recv_tokens := 3; total_tokens := 8 |}
      = Some arguments
    ∧ content
        {| content := Some (PyStr "");
           function_name := Some "functions.search";
           function_arguments := Some (PyDict [("q", "x")]);
           send_tokens := 5; recv_tokens := 3; total_tokens := 8 |}
      = Some (default (PyStr "") (msg_content (message response))).
Proof.
  apply (generate_function_result_is_verbatim example_literal_eval tt
           (calling_service None "functions.search" "{'q': 'x'}")
           "" [] "find x" [search_schema] empty_world _
           (after_dispatch empty_world (construct_messages "" [] "find x"))
           "functions.search");
    reflexivity.
Defined.

(** ** Interruption while the arguments are parsed *)

Section InterruptFacts.

Context {Value Args : Type}.
Variable literal_eval : string → exn + Value.
Variable JsonRepair_repair : string → exn + string.
Variable ChatCompletion : Request Args → nat → exn + Response.
Variable self_args : Args.

Variables (prepend_prompt : string) (history : list dict)
  (append_prompt : string) (functions : list FunctionSchema).
Variables (response : Response) (function_call : FunctionCall).

Hypothesis functions_supplied : functions ≠ [].
Hypothesis reply_always : ∀ req k, ChatCompletion req k = inr response.
Hypothesis reply_calls :
  msg_function_call (message response) = Some function_call.
Hypothesis name_valid :
  valid_function functions
    (normalize_function_name (fc_name function_call)) = true.
Hypothesis parse_interrupted :
  literal_eval (fc_arguments function_call) = inl KeyboardInterrupt.

(** C9: an interruption is not always propagated.  When the service
    answers with a call of a supplied function and [KeyboardInterrupt] is
    raised while [ast.literal_eval] reads the arguments,
    [generate_response] raises it to the caller after the one request;
    [agenerate_response] catches it in the bare [except:] of line 226:
    when the repaired string parses, the call returns a Result and the
    interruption is lost, and when repair or re-parse fails too (line
    235), the attempt raises [ValueError], which is retried, so that the
    call sends twenty requests before it raises [ValueError]. *)
Theorem interrupt_while_parsing_is_swallowed (fuel : nat) (w : World) :
  20 ≤ fuel →
  generate_response literal_eval ChatCompletion self_args fuel
    prepend_prompt history append_prompt functions w
  = Some (inl KeyboardInterrupt,
          after_dispatch w
            (construct_messages prepend_prompt history append_prompt))
  ∧ (∀ repaired arguments,
       JsonRepair_repair (fc_arguments function_call) = inr repaired →
       literal_eval repaired = inr arguments →
       ∃ r,
         agenerate_response literal_eval JsonRepair_repair ChatCompletion
           self_args fuel prepend_prompt history append_prompt functions w
         = Some (inr r,
                 after_dispatch w
                   (construct_messages prepend_prompt history append_prompt))
         ∧ function_arguments r = Some arguments)
  ∧ ((∀ repaired,
        JsonRepair_repair (fc_arguments function_call) = inr repaired →
        ∃ e, literal_eval repaired = inl e) →
     ∃ w',
       agenerate_response literal_eval JsonRepair_repair ChatCompletion
         self_args fuel prepend_prompt history append_prompt functions w
       = Some (inl (ValueError invalid_json_error), w')
       ∧ dispatches w' = dispatches w + 20).
Proof.
  intros Hfuel.
  destruct fuel as [|fuel']; [lia |].
  split; [| split].
  - apply retry_loop_propagates; [| done].
    rewrite (generate_response_function_call literal_eval ChatCompletion
               self_args prepend_prompt history append_prompt functions w
               response function_call functions_supplied
               (λ req, reply_always req (dispatches w)) reply_calls).
    by rewrite parse_interrupted.
  - intros repaired arguments Hrepair Hparse. eexists. split.
    + apply retry_loop_returns.
      rewrite (agenerate_response_valid_function literal_eval
                 JsonRepair_repair ChatCompletion self_args prepend_prompt
                 history append_prompt functions w response function_call
                 functions_supplied (λ req, reply_always req (dispatches w))
                 reply_calls name_valid).
      rewrite (parse_arguments_repaired _ _ _ _ _ _ _
                 parse_interrupted Hrepair Hparse).
      reflexivity.
    + reflexivity.
  - intros Hbad.
    set (fn := attempt_of literal_eval JsonRepair_repair ChatCompletion
                 self_args NonBlocking prepend_prompt history append_prompt
                 functions).
    assert (∀ w0, ∃ w1, fn w0 = (inl (ValueError invalid_json_error), w1))
      as Hfails.
    { intros w0. eexists. subst fn. unfold attempt_of.
      rewrite (agenerate_response_valid_function literal_eval
                 JsonRepair_repair ChatCompletion self_args prepend_prompt
                 history append_prompt functions w0 response function_call
                 functions_supplied (λ req, reply_always req (dispatches w0))
                 reply_calls name_valid).
      rewrite (parse_arguments_irreparable _ _ _ _ _ parse_interrupted Hbad).
      reflexivity. }
    exists (world_before fn 20 w). split.
    + change (retry (S fuel') 20 fn w
              = Some (inl (ValueError invalid_json_error),
                      world_before fn 20 w)).
      unfold retry. replace (S fuel') with (19 + S (fuel' - 19)) by lia.
      rewrite retry_loop_failures; [| | lia].
      * apply retry_loop_stops; [| simpl; lia].
        destruct (Hfails (world_before fn 19 w)) as [w1 Hw1].
        change (world_before fn 20 w) with ((fn (world_before fn 19 w)).2).
        by rewrite Hw1.
      * intros k _. destruct (Hfails (world_before fn k w)) as [w1 Hw1].
        exists (ValueError invalid_json_error). by rewrite Hw1.
    + subst fn. apply world_before_dispatches.
Qed.

End InterruptFacts.

Lemma interrupt_while_parsing_is_swallowed_witness :
  generate_response interrupted_literal_eval
    (calling_service (Some PyNone) "search" "{'q': 'x'}") tt 20
    "" [] "find x" [search_schema] empty_world
  = Some (inl KeyboardInterrupt,
          after_dispatch empty_world (construct_messages "" [] "find x"))
  ∧ ∃ w',
      agenerate_response interrupted_literal_eval interrupted_repair
        (calling_service (Some PyNone) "search" "{'q': 'x'}") tt 20
        "" [] "find x" [search_schema] empty_world
      = Some (inl (ValueError invalid_json_error), w')
      ∧ dispatches w' = dispatches empty_world + 20.
Proof.
  destruct (interrupt_while_parsing_is_swallowed interrupted_literal_eval
              interrupted_repair
              (calling_service (Some PyNone) "search" "{'q': 'x'}") tt
              "" [] "find x" [search_schema]
              (function_call_reply (Some PyNone) "search" "{'q': 'x'}")
              {| fc_name := "search"; fc_arguments := "{'q': 'x'}" |}
              ltac:(discriminate) ltac:(reflexivity) ltac:(reflexivity)
              ltac:(reflexivity) ltac:(reflexivity) 20 empty_world
              ltac:(lia))
    as (Hblocking & _ & Hretried).
  split; [exact Hblocking |].
  apply Hretried. intros repaired Hrepair. discriminate Hrepair.
Defined.

(** The interruption that is lost: the parser is interrupted on the
    string as received, the repair closes the brace and the second parse
    succeeds.  The non-blocking call returns a Result; the blocking call
    raises [KeyboardInterrupt]. *)
Example interrupt_lost_on_repair :
  agenerate_response literal_eval_interrupted_once example_repair
    (calling_service (Some PyNone) "search" "{'q': 'x'") tt 20
    "" [] "find x" [search_schema] empty_world
  = Some (inr {| content := None;
                 function_name := Some "search";
                 function_arguments := Some (PyDict [("q", "x")]);
                 send_tokens := 5;
                 recv_tokens := 3;
                 total_tokens := 8 |},
          after_dispatch empty_world (construct_messages "" [] "find x"))
  ∧ generate_response literal_eval_interrupted_once
      (calling_service (Some PyNone) "search" "{'q': 'x'") tt 20
      "" [] "find x" [search_schema] empty_world
    = Some (inl KeyboardInterrupt,
            after_dispatch empty_world (construct_messages "" [] "find x")).
Proof. split; reflexivity. Qed.
